(** * agent-share: a shallow embedding of the install/update reconciliation
    flow, the source resolver and the persisted configuration.

    Sources embedded here:
    - [utils/repo]    parseGitHubUrl, fetchRepo
    - [utils/link]    linkOrCopy
    - [utils/config]  getConfig, setConfig
    - [utils/targets] TARGETS, getTargetConfig
    - [utils/prompts] selectItemsWithExistenceCheck
    - [commands/install] installCommand (steps 5 to 7: the selection, the
      confirmation and the per-target loop)
    - [commands/config] configCommand
    - [utils/settings] deepMerge, mergeSettings, mergeMcp

    JavaScript strings are modelled by [string]; one [ascii] stands for one
    code unit, so the development speaks about strings over U+0000..U+00FF.
    The Node runtime (fs-extra, path, os, fetch, tar, the clock) is not part
    of the repository: it is the record [Host.t] together with the
    filesystem state [Host.World]. *)

From Stdlib Require Import Ascii String.
From stdpp Require Import base option list strings gmap pretty.

Set Warnings "-clear-no-such-hyp,-register-all".

(** ** Completion of an asynchronous call *)

(** An awaited call either resolves, rejects with an error message, or the
    process leaves through [process.exit]. *)
Inductive outcome (A : Type) : Type :=
| Done (a : A)
| Thrown (msg : string)
| Exited (code : Z).
Arguments Done {A} a.
Arguments Thrown {A} msg.
Arguments Exited {A} code.

(** ** Regular expressions, as far as [parseGitHubUrl] uses them *)

Module JsRegExp.

Inductive regex : Type :=
| Lit (l : string)                 (* a run of literal characters *)
| OneOrMore (cls : ascii → bool)   (* [cls]+, greedy *)
| Seq (r1 r2 : regex)
| Optional (r : regex)             (* (?: r )?, greedy *)
| Group (n : nat) (r : regex).     (* capturing group number n *)

(** [[^/]] *)
Definition not_slash (c : ascii) : bool := negb (Ascii.eqb c "/").

(** [.] without the [s] flag: anything but a line terminator; of the four
    line terminators only LF and CR are below U+0100. *)
Definition dot (c : ascii) : bool :=
  negb (Ascii.eqb c "010" || Ascii.eqb c "013").

Fixpoint strip_prefix (l s : string) : option string :=
  match l, s with
  | EmptyString, _ => Some s
  | String a l', String b s' => if Ascii.eqb a b then strip_prefix l' s' else None
  | String _ _, EmptyString => None
  end.

Fixpoint take (n : nat) (s : string) : string :=
  match n, s with
  | S n', String c s' => String c (take n' s')
  | _, _ => EmptyString
  end.

(** The text between the position [s] and the later position [s']. *)
Definition consumed (s s' : string) : string :=
  take (String.length s - String.length s') s.

Definition captures := gmap nat string.

(** Greedy [cls+]: the longest run first, then shorter ones. *)
Fixpoint more (cls : ascii → bool) (s : string)
    (k : string → option captures) : option captures :=
  match s with
  | EmptyString => None
  | String c s' =>
      if cls c then
        match more cls s' k with
        | Some m => Some m
        | None => k s'
        end
      else None
  end.

(** Backtracking matcher: [k] is the rest of the pattern. *)
Fixpoint run (r : regex) (s : string) (caps : captures)
    (k : string → captures → option captures) : option captures :=
  match r with
  | Lit l =>
      match strip_prefix l s with
      | Some s' => k s' caps
      | None => None
      end
  | OneOrMore cls => more cls s (λ s', k s' caps)
  | Seq r1 r2 => run r1 s caps (λ s' caps', run r2 s' caps' k)
  | Optional r' =>
      match run r' s caps k with
      | Some m => Some m
      | None => k s caps
      end
  | Group n r' => run r' s caps (λ s' caps', k s' (<[n := consumed s s']> caps'))
  end.

(** [$] *)
Definition at_end (s : string) (caps : captures) : option captures :=
  match s with
  | EmptyString => Some caps
  | String _ _ => None
  end.

(** [input.match(/^ r $/)]: with [^] only the start index 0 can match. *)
Definition exec (r : regex) (input : string) : option captures :=
  run r input ∅ at_end.

Fixpoint all (cls : ascii → bool) (s : string) : bool :=
  match s with
  | EmptyString => true
  | String c s' => cls c && all cls s'
  end.

(** The set of strings a pattern denotes. *)
Inductive lang : regex → string → Prop :=
| lang_lit l : lang (Lit l) l
| lang_more cls c s : cls c = true → all cls s = true → lang (OneOrMore cls) (String c s)
| lang_seq r1 r2 s1 s2 : lang r1 s1 → lang r2 s2 → lang (Seq r1 r2) (s1 +:+ s2)
| lang_skip r : lang (Optional r) ""
| lang_take r s : lang r s → lang (Optional r) s
| lang_group n r s : lang r s → lang (Group n r) s.

(** A path segment: not empty, no slash. *)
Definition segment (s : string) : Prop := s ≠ "" ∧ all not_slash s = true.

(** What stops a greedy run: the end of the input, or a character
    outside the class. *)
Definition stops (cls : ascii → bool) (rest : string) : Prop :=
  match rest with
  | EmptyString => True
  | String c _ => cls c = false
  end.

End JsRegExp.

(** ** utils/repo: parseGitHubUrl *)

Module Repo.
Import JsRegExp.

Record RepoInfo : Type := {
  owner : string;
  repo : string;
  branch : string;
  subpath : option string
}.

(** [/^https?:\/\/github\.com\/([^/]+)\/([^/]+)(?:\/tree\/([^/]+))?(?:\/(.+))?$/] *)
Definition full_url_pattern : regex :=
  Seq (Lit "http") (Seq (Optional (Lit "s")) (Seq (Lit "://github.com/")
    (Seq (Group 1 (OneOrMore not_slash)) (Seq (Lit "/")
      (Seq (Group 2 (OneOrMore not_slash))
        (Seq (Optional (Seq (Lit "/tree/") (Group 3 (OneOrMore not_slash))))
             (Optional (Seq (Lit "/") (Group 4 (OneOrMore dot)))))))))).

(** [/^([^/]+)\/([^/]+)(?:\/(.+))?$/] *)
Definition shorthand_pattern : regex :=
  Seq (Group 1 (OneOrMore not_slash)) (Seq (Lit "/")
    (Seq (Group 2 (OneOrMore not_slash))
         (Optional (Seq (Lit "/") (Group 3 (OneOrMore dot)))))).

Definition patterns : list regex := [full_url_pattern; shorthand_pattern].

(** [str.replace(pat, rep)] with a string pattern: the first occurrence
    only, wherever it stands. *)
Fixpoint replace (pat rep s : string) : string :=
  match strip_prefix pat s with
  | Some rest => rep +:+ rest
  | None =>
      match s with
      | EmptyString => EmptyString
      | String c s' => String c (replace pat rep s')
      end
  end.

(** [x || d] on a possibly undefined string. *)
Definition or_else (x : option string) (d : string) : string :=
  match x with
  | Some (String c s) => String c s
  | _ => d
  end.

Definition info_of_match (m : captures) : RepoInfo :=
  {| owner := default "" (m !! 1);
     repo := replace ".git" "" (default "" (m !! 2));
     branch := or_else (m !! 3) "main";
     subpath := m !! 4 |}.

Fixpoint first_match (ps : list regex) (input : string) : option captures :=
  match ps with
  | [] => None
  | p :: ps' =>
      match exec p input with
      | Some m => Some m
      | None => first_match ps' input
      end
  end.

Definition parseGitHubUrl (input : string) : outcome RepoInfo :=
  match first_match patterns input with
  | Some m => Done (info_of_match m)
  | None => Thrown ("Invalid GitHub URL: " +:+ input)
  end.

End Repo.

(** ** The Node runtime: filesystem, path, os, fetch, tar *)

Module Host.

(** Scalar JSON values, which is all a [Config] document holds. *)
Inductive jval : Type :=
| JStr (s : string)
| JNum (z : Z)
| JBool (b : bool)
| JNull.

(** A JSON object: its own properties. *)
Abbreviation jobject := (gmap string jval).

(** Every call into the runtime, in the order it was made. *)
Inductive call : Type :=
| PathExists (p : string)
| Remove (p : string)
| EnsureDir (p : string)
| Symlink (src dst : string)
| Copy (src dst : string)
| ReadJson (p : string)
| WriteJson (p : string) (doc : jobject)
| WriteFile (p : string)
| Unpack (cwd file : string)
| Fetch (url : string).

Record Response : Type := { ok : bool; body : string }.

(** The machine the tool runs on. [fault c = Some e] makes the call [c]
    reject with message [e], for whatever reason (permissions, an
    unsupported filesystem, the network). *)
Record t : Type := {
  platform : string;                 (* os.platform() *)
  cwd : string;                      (* process.cwd() *)
  homedir : string;                  (* os.homedir() *)
  tmpdir : string;                   (* os.tmpdir() *)
  now : N;                           (* Date.now() *)
  join : list string → string;       (* path.join(...) *)
  dirname : string → string;         (* path.dirname *)
  resolve : string → string;         (* path.resolve *)
  isAbsolute : string → bool;        (* path.isAbsolute *)
  fault : call → option string;
  http : string → Response;          (* what the server answers at a URL *)
  untar : string → list string       (* member paths of an archive, one
                                        leading component stripped *)
}.

(** The disk: [present] holds the paths at which [fs.pathExists] answers
    true, [json] the parsed content of the files that hold a JSON object,
    [trace] the calls made so far. [dangling] holds the links that were
    made to a destination that was not there: [fs.pathExists], which
    follows links, answers false at them, yet the entry is in the way of a
    new link. Whether a link resolves is settled when it is made; the
    model does not follow it again when its destination comes or goes. *)
Record World : Type := {
  present : gset string;
  json : gmap string jobject;
  trace : list call;
  dangling : gset string
}.

Definition M (A : Type) : Type := World → outcome A * World.

Definition ret {A} (a : A) : M A := λ w, (Done a, w).
Definition throw {A} (msg : string) : M A := λ w, (Thrown msg, w).
Definition exit {A} (code : Z) : M A := λ w, (Exited code, w).

Definition bind {A B} (m : M A) (f : A → M B) : M B := λ w,
  match m w with
  | (Done a, w') => f a w'
  | (Thrown e, w') => (Thrown e, w')
  | (Exited c, w') => (Exited c, w')
  end.

(** [try { m } catch (error) { handler(error.message) }]; leaving the
    process is not an exception. *)
Definition try_catch {A} (m : M A) (handler : string → M A) : M A := λ w,
  match m w with
  | (Thrown e, w') => handler e w'
  | r => r
  end.

Definition record (c : call) (w : World) : World :=
  {| present := present w; json := json w; trace := trace w ++ [c];
     dangling := dangling w |}.

Definition with_present (f : gset string → gset string) (w : World) : World :=
  {| present := f (present w); json := json w; trace := trace w;
     dangling := dangling w |}.

Definition with_dangling (f : gset string → gset string) (w : World) : World :=
  {| present := present w; json := json w; trace := trace w;
     dangling := f (dangling w) |}.

(** [q] is [p] or lies below it. *)
Definition within (p q : string) : bool :=
  String.eqb p q || String.prefix (p +:+ "/") q.

(** A call that may reject; when it does not, [effect] happens. *)
Definition perform (h : t) (c : call) (effect : World → World) : M unit := λ w,
  match fault h c with
  | Some e => (Thrown e, record c w)
  | None => (Done tt, effect (record c w))
  end.

(** fs-extra's pathExists never rejects. *)
Definition pathExists (p : string) : M bool := λ w,
  (Done (bool_decide (p ∈ present w)), record (PathExists p) w).

(** Recursive removal; a link is removed, not what it points to. *)
Definition remove (h : t) (p : string) : M unit :=
  perform h (Remove p) (λ w,
    with_dangling (filter (λ q, within p q = false))
      (with_present (filter (λ q, within p q = false)) w)).

(** [p] and the directories above it, up to the root: [path.dirname] is
    taken until it no longer changes the path, which it does after at
    most as many steps as the path has characters. *)
Fixpoint ancestors (h : t) (steps : nat) (p : string) : list string :=
  match steps with
  | 0 => [p]
  | S n =>
      let parent := dirname h p in
      if String.eqb parent p then [p] else p :: ancestors h n parent
  end.

(** [fs.ensureDir]: the directory is made together with every directory
    above it that is missing. *)
Definition ensureDir (h : t) (p : string) : M unit :=
  perform h (EnsureDir p)
    (with_present (λ s, s ∪ list_to_set (ancestors h (String.length p) p))).

(** Where a link at [dst] that holds [src] points: at [src] itself when it
    is absolute, else at [src] taken from the directory of the link. *)
Definition link_dest (h : t) (src dst : string) : string :=
  if isAbsolute h src then src else join h [dirname h dst; src].

(** [fs.symlink(src, dst)] stores [src] as it is and does not look at it.
    It rejects when an entry is at [dst] already, a dangling link
    included. The new link is there for [fs.pathExists] when its
    destination is; otherwise it dangles. *)
Definition symlink (h : t) (src dst : string) : M unit := λ w,
  let w' := record (Symlink src dst) w in
  match fault h (Symlink src dst) with
  | Some e => (Thrown e, w')
  | None =>
      if bool_decide (dst ∈ present w ∪ dangling w) then
        (Thrown ("EEXIST: file already exists, symlink '" +:+ src +:+ "' -> '"
                 +:+ dst +:+ "'"), w')
      else if bool_decide (link_dest h src dst ∈ present w) then
        (Done tt, with_present (λ s, s ∪ {[dst]}) w')
      else (Done tt, with_dangling (λ s, s ∪ {[dst]}) w')
  end.

Definition copy (h : t) (src dst : string) : M unit :=
  perform h (Copy src dst) (with_present (λ s, s ∪ {[dst]})).

Definition writeFile (h : t) (p : string) : M unit :=
  perform h (WriteFile p) (with_present (λ s, s ∪ {[p]})).

Definition extract (h : t) (dir file archive : string) : M unit :=
  perform h (Unpack dir file)
    (with_present (λ s, s ∪ list_to_set ((λ m, join h [dir; m]) <$> untar h archive))).

Definition readJson (h : t) (p : string) : M jobject := λ w,
  let w' := record (ReadJson p) w in
  match fault h (ReadJson p) with
  | Some e => (Thrown e, w')
  | None =>
      if bool_decide (p ∈ present w) then
        match json w !! p with
        | Some doc => (Done doc, w')
        | None => (Thrown (p +:+ ": Unexpected token in JSON"), w')
        end
      else (Thrown ("ENOENT: no such file or directory, open " +:+ p), w')
  end.

Definition writeJson (h : t) (p : string) (doc : jobject) : M unit :=
  perform h (WriteJson p doc) (λ w,
    {| present := present w ∪ {[p]};
       json := <[p := doc]> (json w);
       trace := trace w;
       dangling := dangling w |}).

(** [await fetch(url)]: rejects on a network error, resolves to a
    response of any status otherwise. *)
Definition fetch (h : t) (url : string) : M Response := λ w,
  let w' := record (Fetch url) w in
  match fault h (Fetch url) with
  | Some e => (Thrown e, w')
  | None => (Done (http h url), w')
  end.

End Host.

Declare Scope async_scope.
Delimit Scope async_scope with async.
Notation "x <- m ;; k" := (Host.bind m (λ x, k))
  (at level 100, m at next level, right associativity) : async_scope.
Notation "m ;;; k" := (Host.bind m (λ _, k))
  (at level 100, right associativity) : async_scope.

(** ** utils/repo: fetchRepo *)

Module Fetch.
Import Host Repo.
Local Open Scope async_scope.

Definition tarUrl (owner repo b : string) : string :=
  "https://github.com/" +:+ owner +:+ "/" +:+ repo +:+ "/archive/" +:+ b +:+ ".tar.gz".

(** The [for (const b of branches)] loop; [response] is the variable of
    that name. *)
Fixpoint try_branches (h : t) (owner repo : string) (branches : list string)
    (response : option Response) : M (option Response) :=
  match branches with
  | [] => ret response
  | b :: rest =>
      r <- fetch h (tarUrl owner repo b) ;;
      if ok r then ret (Some r) else try_branches h owner repo rest (Some r)
  end.

Definition fetchRepo (h : t) (input : string) : M string :=
  local <- pathExists input ;;
  if local then ret (resolve h input) else
  match parseGitHubUrl input with
  | Thrown e => throw e
  | Exited c => exit c
  | Done info =>
      let tempDir :=
        join h [tmpdir h; "agent-share";
                owner info +:+ "-" +:+ repo info +:+ "-" +:+ pretty (now h)] in
      ensureDir h tempDir ;;;
      let branches :=
        if String.eqb (branch info) "main" then ["main"; "master"]
        else [branch info] in
      response <- try_branches h (owner info) (repo info) branches None ;;
      match response with
      | Some r =>
          if ok r then
            let tarPath := join h [tempDir; "repo.tar.gz"] in
            writeFile h tarPath ;;;
            extract h tempDir tarPath (body r) ;;;
            remove h tarPath ;;;
            ret tempDir
          else throw "Failed to fetch: Repository not found or not accessible"
      | None => throw "Failed to fetch: Repository not found or not accessible"
      end
  end.

End Fetch.

(** ** utils/link: linkOrCopy *)

Module Link.
Import Host.
Local Open Scope async_scope.

Inductive LinkMethod : Type := symlink_method | copy_method.

Record LinkResult : Type := {
  method : LinkMethod;
  source : string;
  target : string;
  success : bool;
  error : option string
}.

Definition is_symlink (m : LinkMethod) : bool :=
  match m with symlink_method => true | copy_method => false end.

(** [try { await fs.symlink(...); linked } catch { not linked }] *)
Definition attempt (m : M unit) : M bool :=
  try_catch (m ;;; ret true) (λ _, ret false).

Definition linkOrCopy (h : t) (source target : string)
    (method : LinkMethod) (force : bool) : M LinkResult :=
  (* Remove existing if force *)
  (if force then
     there <- pathExists target ;;
     if there then remove h target else ret tt
   else ret tt) ;;;
  (* Check if target exists *)
  there <- pathExists target ;;
  if there then
    ret {| method := method; source := source; target := target;
           success := false; error := Some "Target already exists" |}
  else
    (* Ensure parent directory exists *)
    ensureDir h (dirname h target) ;;;
    let fall_back :=
      copy h source target ;;;
      ret {| method := copy_method; source := source; target := target;
             success := true; error := None |} in
    (* Try symlink on non-Windows *)
    if is_symlink method && negb (String.eqb (platform h) "win32") then
      linked <- attempt (symlink h source target) ;;
      if linked then
        ret {| method := symlink_method; source := source; target := target;
               success := true; error := None |}
      else fall_back
    else fall_back.


End Link.

(** ** utils/config: getConfig, setConfig *)

Module Config.
Import Host.
Local Open Scope async_scope.

Definition CONFIG_PATH (h : t) : string :=
  join h [homedir h; ".config"; "agent-share"; "config.json"].

Definition getConfig (h : t) : M jobject :=
  try_catch
    (there <- pathExists (CONFIG_PATH h) ;;
     if there then readJson h (CONFIG_PATH h) else ret ∅)
    (λ _, ret ∅).

(** [{ ...config, ...updates }]: a property of [updates] wins. *)
Definition spread (config updates : jobject) : jobject := updates ∪ config.

Definition setConfig (h : t) (updates : jobject) : M unit :=
  config <- getConfig h ;;
  let newConfig := spread config updates in
  ensureDir h (dirname h (CONFIG_PATH h)) ;;;
  writeJson h (CONFIG_PATH h) newConfig.

End Config.

(** ** utils/targets: TARGETS, getTargetConfig *)

Module Targets.

Inductive ArtifactType : Type := skills | rules | commands | agents | settings.

Record TargetConfig : Type := {
  name : string;
  skills_dir : string;
  rules_dir : string;
  commands_dir : string;
  agents_dir : string;
  settings_dir : string
}.

(** [config[type]] *)
Definition dir_of (c : TargetConfig) (type : ArtifactType) : string :=
  match type with
  | skills => skills_dir c
  | rules => rules_dir c
  | commands => commands_dir c
  | agents => agents_dir c
  | settings => settings_dir c
  end.

(** What [TARGETS[key]] can be. [TARGETS] is an object literal, so a key
    that is not one of its own three is looked up in [Object.prototype]:
    there it finds a function, which has a [name] and none of the
    directory properties, or, under [__proto__], the prototype itself,
    which has neither. Such a value is truthy and is no [TargetConfig]. *)
Inductive Entry : Type :=
| Config (config : TargetConfig)
| Inherited (name : option string).

Coercion Config : TargetConfig >-> Entry.

(** The functions [Object.prototype] defines. *)
Definition prototype_functions : list string :=
  ["constructor"; "hasOwnProperty"; "isPrototypeOf"; "propertyIsEnumerable";
   "toLocaleString"; "toString"; "valueOf"; "__defineGetter__";
   "__defineSetter__"; "__lookupGetter__"; "__lookupSetter__"].

(** [key] names a member of [Object.prototype]. *)
Definition inherited (key : string) : bool :=
  String.eqb key "__proto__" || bool_decide (key ∈ prototype_functions).

Definition TARGETS (key : string) : option Entry :=
  if String.eqb key ".claude" then
    Some (Config
            {| name := "Claude Code"; skills_dir := ".claude/skills";
               rules_dir := ".claude/rules"; commands_dir := ".claude/commands";
               agents_dir := ".claude/agents"; settings_dir := ".claude" |})
  else if String.eqb key ".cursor" then
    Some (Config
            {| name := "Cursor"; skills_dir := ".cursor/skills";
               rules_dir := ".cursor/rules"; commands_dir := ".cursor/commands";
               agents_dir := ".cursor/agents"; settings_dir := ".cursor" |})
  else if String.eqb key ".agents" then
    Some (Config
            {| name := "Shared Agents"; skills_dir := ".agents/skills";
               rules_dir := ".agents/rules"; commands_dir := ".agents/commands";
               agents_dir := ".agents"; settings_dir := ".agents" |})
  else if String.eqb key "__proto__" then Some (Inherited None)
  else if String.eqb key "constructor" then Some (Inherited (Some "Object"))
  else if bool_decide (key ∈ prototype_functions) then Some (Inherited (Some key))
  else None.

(** [TARGETS[key] || { name: key, ... }]: every value [TARGETS[key]] finds
    is truthy, so the fallback is taken only when it finds none. *)
Definition getTargetConfig (key : string) : Entry :=
  match TARGETS key with
  | Some entry => entry
  | None =>
      Config {| name := key; skills_dir := key +:+ "/skills";
                rules_dir := key +:+ "/rules"; commands_dir := key +:+ "/commands";
                agents_dir := key +:+ "/agents"; settings_dir := key |}
  end.

(** [config[type]] on what [getTargetConfig] returned: [undefined] on a
    value that is no [TargetConfig]. *)
Definition dir_at (entry : Entry) (type : ArtifactType) : option string :=
  match entry with
  | Config config => Some (dir_of config type)
  | Inherited _ => None
  end.

(** [TARGETS[key]?.name] *)
Definition name_at (entry : Entry) : option string :=
  match entry with
  | Config config => Some (name config)
  | Inherited name => name
  end.

End Targets.

(** ** utils/prompts: selectItemsWithExistenceCheck *)

Module Prompts.
Import Host.
Local Open Scope async_scope.

Record Item : Type := { id : string; description : string; path : string }.

Inductive Mode : Type := install | update.

Definition is_install (m : Mode) : bool :=
  match m with install => true | update => false end.

(** What an interactive prompt comes back with. *)
Inductive answer (A : Type) : Type :=
| Cancelled
| Answered (a : A).
Arguments Cancelled {A}.
Arguments Answered {A} a.

(** [handleCancel] *)
Definition handleCancel {A} (value : answer A) : M A :=
  match value with
  | Cancelled => exit 0
  | Answered a => ret a
  end.

(** [ExistenceMap]: targetDir -> exists. *)
Abbreviation ExistenceMap := (gmap string bool).

(** The inner loop [for (const targetDir of targetDirs)]. *)
Fixpoint probe_targets (h : t) (item_id : string) (targetDirs : list string)
    (existsMap : ExistenceMap) : M ExistenceMap :=
  match targetDirs with
  | [] => ret existsMap
  | targetDir :: rest =>
      let targetPath := join h [targetDir; item_id] in
      there <- pathExists targetPath ;;
      probe_targets h item_id rest (<[targetDir := there]> existsMap)
  end.

(** The outer loop [for (const item of items)]. *)
Fixpoint probe_items (h : t) (items : list Item) (targetDirs : list string)
    (existsInTargets : gmap string ExistenceMap) : M (gmap string ExistenceMap) :=
  match items with
  | [] => ret existsInTargets
  | item :: rest =>
      existsMap <- probe_targets h (id item) targetDirs ∅ ;;
      probe_items h rest targetDirs (<[id item := existsMap]> existsInTargets)
  end.

(** [Object.values(map).some(v => v)] *)
Definition some_value (map : ExistenceMap) : bool :=
  existsb (λ kv, kv.2) (map_to_list map).

Definition existsInAny (existsInTargets : gmap string ExistenceMap)
    (itemId : string) : bool :=
  match existsInTargets !! itemId with
  | None => false
  | Some map => some_value map
  end.

Record Selection : Type := {
  selected : list Item;
  existsInTargets : gmap string ExistenceMap
}.

(** [response] is what the multiselect prompt resolves to when it is
    shown; its labels and hints are presentation. *)
Definition selectItemsWithExistenceCheck (h : t) (items : list Item)
    (mode : Mode) (targetDirs : list string) (selectAll : bool)
    (response : answer (list string)) : M Selection :=
  (* Check which items exist in which targets *)
  existsInTargets <- probe_items h items targetDirs ∅ ;;
  if selectAll then
    if is_install mode then
      let newItems := filter (λ i, existsInAny existsInTargets (id i) = false) items in
      ret {| selected := newItems; existsInTargets := existsInTargets |}
    else ret {| selected := items; existsInTargets := existsInTargets |}
  else
    selectedIds <- handleCancel response ;;
    let selected := filter (λ i, id i ∈ selectedIds) items in
    ret {| selected := selected; existsInTargets := existsInTargets |}.

End Prompts.

(** ** commands/install: installCommand *)

Module Install.
Import Host Targets Prompts Link.
Local Open Scope async_scope.

Record InstallSummary : Type := {
  target : string;
  targetName : string;
  installed : nat;
  skipped : nat;
  failed : nat
}.

Definition count_installed (s : InstallSummary) : InstallSummary :=
  {| target := target s; targetName := targetName s;
     installed := S (installed s); skipped := skipped s; failed := failed s |}.

Definition count_skipped (s : InstallSummary) : InstallSummary :=
  {| target := target s; targetName := targetName s;
     installed := installed s; skipped := S (skipped s); failed := failed s |}.

Definition count_failed (s : InstallSummary) : InstallSummary :=
  {| target := target s; targetName := targetName s;
     installed := installed s; skipped := skipped s; failed := S (failed s) |}.

Global Instance ArtifactType_eq_dec : EqDecision ArtifactType.
Proof. solve_decision. Defined.

(** A [Record<string, V>] keyed by artifact type, in insertion order. *)
Fixpoint get_prop {V} (o : list (ArtifactType * V)) (type : ArtifactType) : option V :=
  match o with
  | [] => None
  | (k, v) :: rest => if decide (k = type) then Some v else get_prop rest type
  end.

Fixpoint set_prop {V} (o : list (ArtifactType * V)) (type : ArtifactType) (v : V)
    : list (ArtifactType * V) :=
  match o with
  | [] => [(type, v)]
  | (k, v') :: rest =>
      if decide (k = type) then (k, v) :: rest else (k, v') :: set_prop rest type v
  end.

(** [Object.values(selected).flat()] *)
Definition flat {V} (o : list (ArtifactType * list V)) : list V :=
  concat (snd <$> o).

Definition truthy (b : option bool) : bool := default false b.

(** [path.join(cwd, dir)]: a [TypeError] when [dir] is [undefined]. *)
Definition join_cwd (h : Host.t) (dir : option string) : M string :=
  match dir with
  | Some d => ret (join h [cwd h; d])
  | None =>
      throw ("The " +:+ String "034" "path" +:+ String "034"
             " argument must be of type string. Received undefined")
  end.

(** [targetConfigs.map(tc => path.join(cwd, tc.config[type]))] *)
Fixpoint target_dirs (h : Host.t) (targetConfigs : list (string * Entry))
    (type : ArtifactType) : M (list string) :=
  match targetConfigs with
  | [] => ret []
  | tc :: rest =>
      dir <- join_cwd h (dir_at tc.2 type) ;;
      dirs <- target_dirs h rest type ;;
      ret (dir :: dirs)
  end.

Section Loop.
Variable h : Host.t.
Variable mode : Mode.
Variable method : LinkMethod.
Variable force : bool.
Variable existenceMaps : list (ArtifactType * gmap string ExistenceMap).

(** The body of [for (const item of items)], lines 147-173. *)
Definition install_item (targetConfig : Entry) (type : ArtifactType)
    (item : Item) (summary : InstallSummary) : M InstallSummary :=
  targetDir <- join_cwd h (dir_at targetConfig type) ;;
  let existsMap := get_prop existenceMaps type ≫= (λ m, m !! id item) in
  let existsInThisTarget := existsMap ≫= (λ m : ExistenceMap, m !! targetDir) in
  if is_install mode && truthy existsInThisTarget then
    ret (count_skipped summary)
  else
    let sourcePath := dirname h (path item) in
    let targetPath := join h [targetDir; id item] in
    try_catch
      (result <- linkOrCopy h sourcePath targetPath method force ;;
       if success result then ret (count_installed summary)
       else throw (default "" (error result)))
      (λ errMsg, ret (count_failed summary)).

Fixpoint install_items (targetConfig : Entry) (type : ArtifactType)
    (items : list Item) (summary : InstallSummary) : M InstallSummary :=
  match items with
  | [] => ret summary
  | item :: rest =>
      summary' <- install_item targetConfig type item summary ;;
      install_items targetConfig type rest summary'
  end.

(** [for (const [type, items] of Object.entries(selected))] *)
Fixpoint install_entries (targetConfig : Entry)
    (entries : list (ArtifactType * list Item)) (summary : InstallSummary)
    : M InstallSummary :=
  match entries with
  | [] => ret summary
  | (type, items) :: rest =>
      summary' <- install_items targetConfig type items summary ;;
      install_entries targetConfig rest summary'
  end.

Definition new_summary (targetKey : string) : InstallSummary :=
  {| target := targetKey;
     targetName := Repo.or_else (TARGETS targetKey ≫= name_at) targetKey;
     installed := 0; skipped := 0; failed := 0 |}.

(** [for (const { key, config } of targetConfigs)], lines 134-178. *)
Fixpoint install_targets (targetConfigs : list (string * Entry))
    (selected : list (ArtifactType * list Item))
    (summaries : list InstallSummary) : M (list InstallSummary) :=
  match targetConfigs with
  | [] => ret summaries
  | (targetKey, targetConfig) :: rest =>
      summary <- install_entries targetConfig selected (new_summary targetKey) ;;
      install_targets rest selected (summaries ++ [summary])
  end.

End Loop.

(** Step 5: [for (const type of types)], lines 90-108. *)
Fixpoint select_types (h : Host.t) (mode : Mode) (all : bool)
    (targetConfigs : list (string * Entry)) (types : list ArtifactType)
    (available : list (ArtifactType * list Item))
    (responses : ArtifactType → answer (list string))
    (selected : list (ArtifactType * list Item))
    (existenceMaps : list (ArtifactType * gmap string ExistenceMap))
    : M (list (ArtifactType * list Item) *
         list (ArtifactType * gmap string ExistenceMap)) :=
  match types with
  | [] => ret (selected, existenceMaps)
  | type :: rest =>
      match get_prop available type with
      | Some (item :: items) =>
          targetDirs <- target_dirs h targetConfigs type ;;
          result <- selectItemsWithExistenceCheck h (item :: items) mode
                      targetDirs all (responses type) ;;
          select_types h mode all targetConfigs rest available responses
            (set_prop selected type (Prompts.selected result))
            (set_prop existenceMaps type (Prompts.existsInTargets result))
      | _ =>
          select_types h mode all targetConfigs rest available responses
            selected existenceMaps
      end
  end.

Inductive Finished : Type :=
| NothingToDo
| Declined
| Completed (summaries : list InstallSummary).

(** Steps 5 to 7 of [installCommand]. The earlier steps hand over the
    target keys, the artifact types and the scanned items; [method] is
    [options.method || config.linkMethod || 'symlink']; [responses] and
    [proceed] are what the user answers when asked. *)
Definition installCommand (h : Host.t) (mode : Mode) (all : bool)
    (method : LinkMethod) (targetKeys : list string) (types : list ArtifactType)
    (available : list (ArtifactType * list Item))
    (responses : ArtifactType → answer (list string))
    (proceed : answer bool) : M Finished :=
  try_catch
    (let targetConfigs := (λ key, (key, getTargetConfig key)) <$> targetKeys in
     chosen <- select_types h mode all targetConfigs types available responses [] [] ;;
     let selected := chosen.1 in
     let existenceMaps := chosen.2 in
     let totalSelected := length (flat selected) in
     if Nat.eqb totalSelected 0 then ret NothingToDo
     else
       go <- handleCancel proceed ;;
       if negb go then ret Declined
       else
         let force := negb (is_install mode) in
         summaries <- install_targets h mode method force existenceMaps
                        targetConfigs selected [] ;;
         ret (Completed summaries))
    (λ errMsg, exit 1).

End Install.

(** ** commands/config: configCommand *)

Module ConfigCommand.
Import Host Config.
Local Open Scope async_scope.

(** The options commander hands over; [--target] and [--method] carry any
    string. *)
Record ConfigOptions : Type := {
  target : option string;
  method : option string;
  show : bool
}.

(** A string option that is set and not empty. *)
Definition given (o : option string) : option string :=
  match o with
  | Some (String c s) => Some (String c s)
  | _ => None
  end.

(** [showConfig]: reads the configuration and prints it. *)
Definition showConfig (h : Host.t) : M unit :=
  getConfig h ;;; ret tt.

Definition valid_method (m : string) : bool :=
  String.eqb m "symlink" || String.eqb m "copy".

Definition configCommand (h : Host.t) (options : ConfigOptions) : M unit :=
  if show options || (negb (bool_decide (is_Some (given (target options))))
                      && negb (bool_decide (is_Some (given (method options)))))
  then showConfig h
  else
    let updates : jobject :=
      match given (target options) with
      | Some t => {[ "defaultTarget" := JStr t ]}
      | None => ∅
      end in
    match given (method options) with
    | Some m =>
        if negb (valid_method m) then exit 1
        else setConfig h (<[ "linkMethod" := JStr m ]> updates)
    | None => setConfig h updates
    end.

End ConfigCommand.

(** ** utils/settings: deepMerge, mergeSettings, mergeMcp *)

Module Settings.

(** JSON values with nesting; numbers are the integers. *)
Inductive json : Type :=
| Null
| Bool (b : bool)
| Num (z : Z)
| Str (s : string)
| Arr (items : list json)
| Obj (props : list (string * json)).

(** A [Record<string, unknown>]: the own properties in the order
    JavaScript enumerates them, each key once. Keys that read as array
    indices, which are enumerated before the others whenever they were
    added, and the names [Object.prototype] defines ([__proto__],
    [constructor], ...), for which [o[key]] reaches the prototype, are
    left out of the model. *)
Abbreviation object := (list (string * json)).

(** [o[key]] *)
Fixpoint get (o : object) (key : string) : option json :=
  match o with
  | [] => None
  | (k, v) :: rest => if String.eqb k key then Some v else get rest key
  end.

(** [o[key] = v]: an existing key keeps its place, a new one goes last. *)
Fixpoint set (o : object) (key : string) (v : json) : object :=
  match o with
  | [] => [(key, v)]
  | (k, v') :: rest =>
      if String.eqb k key then (k, v) :: rest else (k, v') :: set rest key v
  end.

(** JavaScript truthiness of a JSON value. *)
Definition truthy (v : option json) : bool :=
  match v with
  | None | Some Null => false
  | Some (Bool b) => b
  | Some (Num z) => negb (Z.eqb z 0)
  | Some (Str s) => negb (String.eqb s "")
  | Some (Arr _) | Some (Obj _) => true
  end.

(** [result = { ...target }], then one assignment per key of [source]:
    two plain objects are merged recursively, anything else (arrays,
    scalars, null, a key the target lacks) takes the value of [source].
    The recursion descends into the values of [source], so it is written
    on the JSON value that holds them. *)
Fixpoint merge_into (target : object) (source : json) {struct source} : object :=
  match source with
  | Obj sprops =>
      (fix assign (keys : object) (result : object) {struct keys} : object :=
         match keys with
         | [] => result
         | (key, sv) :: rest =>
             let v :=
               match sv, get target key with
               | Obj _, Some (Obj tprops) => Obj (merge_into tprops sv)
               | _, _ => sv
               end in
             assign rest (set result key v)
         end) sprops target
  | _ => target
  end.

Definition deepMerge (target source : object) : object :=
  merge_into target (Obj source).

(** The value [deepMerge] assigns at a key of [source]. *)
Definition merged_value (target : object) (key : string) (sv : json) : json :=
  match sv, get target key with
  | Obj sprops, Some (Obj tprops) => Obj (deepMerge tprops sprops)
  | _, _ => sv
  end.

(** What a path holds: a JSON object, or something that cannot be read as
    JSON (a directory, a damaged file). A file that holds a JSON array or
    scalar is left out of the model. *)
Inductive content : Type :=
| NotJson
| Json (doc : object).

Inductive op : Type :=
| Read (p : string)
| Write (p : string)
| CopyFile (src dst : string)
| MakeDir (p : string).

(** The runtime as far as these functions use it: [refuses o = Some e]
    makes the call reject with [e]. A write empties the file before it
    fills it, so one that rejects on the way leaves a file that is no
    longer JSON: [torn p] says that a rejected write to [p] had got that
    far. *)
Record io : Type := {
  dirname : string → string;
  refuses : op → option string;
  torn : string → bool
}.

Abbreviation Files := (gmap string content).

Definition S (A : Type) : Type := Files → outcome A * Files.

Definition ret {A} (a : A) : S A := λ fs, (Done a, fs).

Definition bind {A B} (m : S A) (f : A → S B) : S B := λ fs,
  match m fs with
  | (Done a, fs') => f a fs'
  | (Thrown e, fs') => (Thrown e, fs')
  | (Exited c, fs') => (Exited c, fs')
  end.

Definition pathExists (p : string) : S bool := λ fs,
  (Done (bool_decide (is_Some (fs !! p))), fs).

Definition readJson (env : io) (p : string) : S object := λ fs,
  match refuses env (Read p) with
  | Some e => (Thrown e, fs)
  | None =>
      match fs !! p with
      | Some (Json doc) => (Done doc, fs)
      | Some NotJson => (Thrown (p +:+ ": Unexpected token in JSON"), fs)
      | None => (Thrown ("ENOENT: no such file or directory, open " +:+ p), fs)
      end
  end.

Definition writeJson (env : io) (p : string) (doc : object) : S unit := λ fs,
  match refuses env (Write p) with
  | Some e => (Thrown e, if torn env p then <[p := NotJson]> fs else fs)
  | None => (Done tt, <[p := Json doc]> fs)
  end.

(** [fs.copy(src, dst)]: the destination is overwritten. *)
Definition copy (env : io) (src dst : string) : S unit := λ fs,
  match refuses env (CopyFile src dst) with
  | Some e => (Thrown e, fs)
  | None =>
      match fs !! src with
      | Some c => (Done tt, <[dst := c]> fs)
      | None => (Thrown ("ENOENT: no such file or directory, lstat " +:+ src), fs)
      end
  end.

Definition ensureDir (env : io) (p : string) : S unit := λ fs,
  match refuses env (MakeDir p) with
  | Some e => (Thrown e, fs)
  | None => (Done tt, fs)
  end.

Definition mergeSettings (env : io) (sourcePath targetPath : string)
    (backup : bool) : S unit :=
  bind (readJson env sourcePath) (λ sourceSettings,
  bind (pathExists targetPath) (λ there,
  bind (if there then
          bind (if backup then copy env targetPath (targetPath +:+ ".backup")
                else ret tt) (λ _,
          readJson env targetPath)
        else ret []) (λ targetSettings,
  let merged := deepMerge targetSettings sourceSettings in
  writeJson env targetPath merged))).

(** [doc.mcpServers], read at its declared type [Record<string, unknown>];
    a missing or falsy value stands for [{}]. A value of another shape is
    outside the declared type and is not given a meaning of its own. *)
Definition servers_of (doc : object) : object :=
  match get doc "mcpServers" with
  | Some (Obj servers) => servers
  | _ => []
  end.

(** [doc.mcpServers] has its declared type, or is missing or falsy. *)
Definition typed (doc : object) : Prop :=
  match get doc "mcpServers" with
  | Some (Obj _) => True
  | v => truthy v = false
  end.

Record McpResult : Type := { added : list string; skipped : list string }.

(** The loop [for (const [name, config] of Object.entries(...))]. *)
Fixpoint merge_servers (entries : object) (servers : object)
    (added skipped : list string) : object * McpResult :=
  match entries with
  | [] => (servers, {| added := added; skipped := skipped |})
  | (name, config) :: rest =>
      if truthy (get servers name) then
        merge_servers rest servers added (skipped ++ [name])
      else
        merge_servers rest (set servers name config) (added ++ [name]) skipped
  end.

Definition mergeMcp (env : io) (sourcePath targetPath : string) : S McpResult :=
  bind (readJson env sourcePath) (λ sourceMcp,
  bind (pathExists targetPath) (λ there,
  bind (if there then readJson env targetPath
        else ret [("mcpServers", Obj [])]) (λ targetMcp,
  let merged := merge_servers (servers_of sourceMcp) (servers_of targetMcp) [] [] in
  bind (ensureDir env (dirname env targetPath)) (λ _,
  bind (writeJson env targetPath (set targetMcp "mcpServers" (Obj merged.1))) (λ _,
  ret merged.2))))).

End Settings.

(** ** Reading the results *)

Module Reading.
Import Host Targets Prompts Install.

(** A filesystem entry named [<targetDir>/<id>] is present. *)
Definition probe (h : Host.t) (w : World) (targetDir id : string) : bool :=
  bool_decide (join h [targetDir; id] ∈ present w).

(** The matrix entry for an item id and a target directory. *)
Definition entry (matrix : gmap string ExistenceMap) (id targetDir : string)
    : option bool :=
  matrix !! id ≫= (λ row : ExistenceMap, row !! targetDir).

(** The row of an item is false for every target. *)
Definition absent_everywhere (matrix : gmap string ExistenceMap)
    (targetDirs : list string) (id : string) : bool :=
  forallb (λ d, bool_decide (entry matrix id d = Some false)) targetDirs.

Definition total (s : InstallSummary) : nat :=
  installed s + skipped s + failed s.

(** What the loop reads in the matrix for an item and a target directory:
    [existenceMaps[type]?.get(id)?.[targetDir]], as a condition. *)
Definition recorded (existenceMaps : list (ArtifactType * gmap string ExistenceMap))
    (type : ArtifactType) (id targetDir : string) : bool :=
  truthy ((get_prop existenceMaps type ≫= (λ m, m !! id))
            ≫= (λ m : ExistenceMap, m !! targetDir)).

(** Target configurations of the declared type, as the values
    [getTargetConfig] hands to the loops. *)
Definition as_entries (targetConfigs : list (string * TargetConfig))
    : list (string * Entry) :=
  (λ tc, (tc.1, Config tc.2)) <$> targetConfigs.

(** The URLs downloaded by a run, in order. *)
Definition fetched (calls : list call) : list string :=
  omap (λ c, match c with Fetch url => Some url | _ => None end) calls.

End Reading.

(** ** A concrete machine, for examples *)

Module Sample.
Import Host.

Fixpoint up_to_last_slash (s : string) : option string :=
  match s with
  | EmptyString => None
  | String c s' =>
      match up_to_last_slash s' with
      | Some d => Some (String c d)
      | None => if Ascii.eqb c "/" then Some EmptyString else None
      end
  end.

Definition posix_dirname (s : string) : string :=
  match up_to_last_slash s with
  | Some EmptyString => "/"
  | Some d => d
  | None => "."
  end.

Definition no_fault (c : call) : option string := None.

Definition posix (fault : call → option string) (http : string → Response) : Host.t :=
  {| platform := "linux"; cwd := "/work"; homedir := "/home/u"; tmpdir := "/tmp";
     now := 1700000000000%N;
     join := String.concat "/"; dirname := posix_dirname; resolve := id;
     isAbsolute := String.prefix "/";
     fault := fault; http := http; untar := λ _, ["skills/foo/SKILL.md"] |}.

Definition windows : Host.t :=
  {| platform := "win32"; cwd := "C:/work"; homedir := "C:/Users/u";
     tmpdir := "C:/Temp"; now := 1700000000000%N;
     join := String.concat "/"; dirname := posix_dirname; resolve := id;
     isAbsolute := λ p, String.prefix "C:/" p || String.prefix "/" p;
     fault := no_fault; http := λ _, {| ok := false; body := "" |};
     untar := λ _, [] |}.

Definition not_found (url : string) : Response := {| ok := false; body := "" |}.

Definition linux : Host.t := posix no_fault not_found.

(** No network: every fetch rejects. *)
Definition offline : Host.t :=
  posix (λ c, match c with Fetch _ => Some "fetch failed" | _ => None end)
        not_found.

(** A filesystem that refuses symbolic links. *)
Definition no_symlinks : Host.t :=
  posix (λ c, match c with Symlink _ _ => Some "EPERM: operation not permitted"
                         | _ => None end)
        not_found.

(** A machine on which [/src/skills/gone] is no longer there: copying
    from it fails. *)
Definition gone : Host.t :=
  posix (λ c, match c with
              | Copy src _ =>
                  if String.eqb src "/src/skills/gone"
                  then Some "ENOENT: no such file or directory, lstat '/src/skills/gone'"
                  else None
              | _ => None
              end)
        not_found.

Definition disk (paths : list string) : World :=
  {| present := list_to_set paths; json := ∅; trace := []; dangling := ∅ |}.

Definition foo : Prompts.Item :=
  {| Prompts.id := "foo"; Prompts.description := "desc";
     Prompts.path := "/src/skills/foo/SKILL.md" |}.

Definition bar : Prompts.Item :=
  {| Prompts.id := "bar"; Prompts.description := "";
     Prompts.path := "/src/skills/bar/SKILL.md" |}.

(** A disk whose configuration file sets the default target. *)
Definition configured : World :=
  {| present := {[ "/home/u/.config/agent-share/config.json" ]};
     json := {[ "/home/u/.config/agent-share/config.json" :=
                  {[ "defaultTarget" := JStr ".cursor" ]} ]};
     trace := []; dangling := ∅ |}.

(** A disk whose configuration file is there but does not hold JSON. *)
Definition unreadable : World :=
  disk ["/home/u/.config/agent-share/config.json"].

(** A repository whose default branch is [master]. *)
Definition master_only : Host.t :=
  posix no_fault
    (λ url, {| ok := String.eqb url
                       "https://github.com/owner/repo/archive/master.tar.gz";
               body := "archive" |}).

(** A second item with the id of [foo], scanned from elsewhere. *)
Definition foo_again : Prompts.Item :=
  {| Prompts.id := "foo"; Prompts.description := "another foo";
     Prompts.path := "/src/extra/foo/SKILL.md" |}.

(** The configuration of [.claude], as [TARGETS] has it. *)
Definition claude : Targets.TargetConfig :=
  {| Targets.name := "Claude Code"; Targets.skills_dir := ".claude/skills";
     Targets.rules_dir := ".claude/rules";
     Targets.commands_dir := ".claude/commands";
     Targets.agents_dir := ".claude/agents"; Targets.settings_dir := ".claude" |}.

Definition claude_summary : Install.InstallSummary :=
  {| Install.target := ".claude"; Install.targetName := "Claude Code";
     Install.installed := 0; Install.skipped := 0; Install.failed := 0 |}.

(** A runtime on which no file call is refused. *)
Definition plain : Settings.io :=
  {| Settings.dirname := posix_dirname; Settings.refuses := λ _, None;
     Settings.torn := λ _, false |}.

Definition source_settings : Settings.object :=
  [("model", Settings.Str "opus");
   ("permissions", Settings.Obj [("allow", Settings.Arr [Settings.Str "Bash"])])].

Definition target_settings : Settings.object :=
  [("theme", Settings.Str "dark");
   ("permissions", Settings.Obj [("deny", Settings.Arr [Settings.Str "Write"]);
                                 ("allow", Settings.Arr [])])].

Definition settings_files : Settings.Files :=
  {[ "/src/settings.json" := Settings.Json source_settings;
     "/work/.claude/settings.json" := Settings.Json target_settings ]}.

Definition damaged_files : Settings.Files :=
  {[ "/src/settings.json" := Settings.Json source_settings;
     "/work/.claude/settings.json" := Settings.NotJson ]}.

Definition source_only : Settings.Files :=
  {[ "/src/settings.json" := Settings.Json source_settings ]}.

Definition source_mcp : Settings.object :=
  [("mcpServers",
    Settings.Obj [("github", Settings.Obj [("command", Settings.Str "gh")]);
                  ("files", Settings.Obj [("command", Settings.Str "fs")])])].

Definition target_mcp : Settings.object :=
  [("theme", Settings.Str "dark");
   ("mcpServers",
    Settings.Obj [("github", Settings.Obj [("command", Settings.Str "mine")])])].

Definition mcp_files : Settings.Files :=
  {[ "/src/mcp.json" := Settings.Json source_mcp;
     "/work/.mcp.json" := Settings.Json target_mcp ]}.

End Sample.

(** * Part II: properties *)

Import JsRegExp Repo Host Fetch Link Config Targets Prompts Install Reading.

(** ** Strings *)

#[local] Arguments String.append !_ _ : simpl nomatch.

Lemma append_nil_r (s : string) : s +:+ "" = s.
Proof. induction s as [|c s IH]; simpl; [done | by rewrite IH]. Qed.

Lemma append_assoc (a b c : string) : (a +:+ b) +:+ c = a +:+ (b +:+ c).
Proof. induction a as [|x a IH]; simpl; [done | by rewrite IH]. Qed.

Lemma length_append (a b : string) :
  String.length (a +:+ b) = String.length a + String.length b.
Proof. induction a as [|x a IH]; simpl; [done | by rewrite IH]. Qed.

(** ** The matcher accepts exactly the language of the pattern *)

Section Matcher.

Lemma strip_prefix_Some (l s s' : string) :
  strip_prefix l s = Some s' → s = l +:+ s'.
Proof.
  revert s. induction l as [|a l IH]; intros [|b s]; simpl; try congruence.
  destruct (Ascii.eqb_spec a b) as [->|]; [|done].
  intros H. by rewrite (IH _ H).
Qed.

Lemma strip_prefix_app (l s : string) : strip_prefix l (l +:+ s) = Some s.
Proof.
  induction l as [|a l IH]; simpl; [by destruct s|].
  by rewrite Ascii.eqb_refl.
Qed.

Lemma more_sound cls s k m :
  more cls s k = Some m →
  ∃ c pre s', s = String c pre +:+ s' ∧ cls c = true ∧ all cls pre = true ∧ k s' = Some m.
Proof.
  revert m. induction s as [|c s IH]; simpl; [done|].
  intros m. destruct (cls c) eqn:Hc; [|done].
  destruct (more cls s k) as [m'|] eqn:Hm.
  - intros [= ->]. destruct (IH _ eq_refl) as (c' & pre & s' & -> & Hc' & Hpre & Hk).
    exists c, (String c' pre), s'. simpl. by rewrite Hc', Hpre.
  - intros Hk. by exists c, "", s.
Qed.

Lemma run_sound r s caps k m :
  run r s caps k = Some m →
  ∃ pre s' caps', s = pre +:+ s' ∧ lang r pre ∧ k s' caps' = Some m.
Proof.
  revert s caps k m. induction r as [l|cls|r1 IH1 r2 IH2|r IH|n r IH];
    intros s caps k m; simpl.
  - destruct (strip_prefix l s) as [s'|] eqn:Hl; [|done].
    intros Hk. exists l, s', caps. split_and!; [by apply strip_prefix_Some | constructor | done].
  - intros (c & pre & s' & -> & Hc & Hpre & Hk)%more_sound.
    exists (String c pre), s', caps. split_and!; [done | by constructor | done].
  - intros (p1 & s1 & caps1 & -> & L1 & H2)%IH1.
    apply IH2 in H2 as (p2 & s2 & caps2 & -> & L2 & Hk).
    exists (p1 +:+ p2), s2, caps2. split_and!; [by rewrite append_assoc | by constructor | done].
  - destruct (run r s caps k) as [m'|] eqn:Hr.
    + intros [= ->]. apply IH in Hr as (pre & s' & caps' & -> & L & Hk).
      exists pre, s', caps'. split_and!; [done | by apply lang_take | done].
    + intros Hk. exists "", s, caps. split_and!; [done | constructor | done].
  - intros (pre & s' & caps' & -> & L & Hk)%IH.
    eexists pre, s', _. split_and!; [done | by constructor | exact Hk].
Qed.

Lemma more_complete cls c pre s' k :
  cls c = true → all cls pre = true → is_Some (k s') →
  is_Some (more cls (String c pre +:+ s') k).
Proof.
  revert c. induction pre as [|c' pre IH]; intros c Hc Hpre Hk; simpl; rewrite Hc.
  - by destruct (more cls s' k).
  - simpl in Hpre. apply andb_prop in Hpre as [Hc' Hpre].
    destruct (IH c' Hc' Hpre Hk) as [m Hm]. simpl in Hm. by rewrite Hm.
Qed.

Lemma run_complete r pre :
  lang r pre →
  ∀ s' caps k, (∀ caps', is_Some (k s' caps')) → is_Some (run r (pre +:+ s') caps k).
Proof.
  induction 1 as [l|cls c s Hc Hs|r1 r2 s1 s2 _ IH1 _ IH2|r|r s _ IH|n r s _ IH];
    intros s' caps k Hk; simpl.
  - by rewrite strip_prefix_app.
  - by apply (more_complete cls c s s' (λ s0, k s0 caps)).
  - rewrite append_assoc. apply IH1. intros caps'. by apply IH2.
  - by destruct (run r s' caps k).
  - by destruct (IH s' caps k Hk) as [m ->].
  - apply IH. intros caps'. apply Hk.
Qed.

Lemma exec_sound r input m : exec r input = Some m → lang r input.
Proof.
  intros (pre & s' & caps' & -> & L & Hk)%run_sound.
  destruct s'; [|done]. by rewrite append_nil_r.
Qed.

Lemma exec_complete r input : lang r input → is_Some (exec r input).
Proof.
  intros L. unfold exec. rewrite <- (append_nil_r input).
  by apply run_complete.
Qed.

Lemma exec_None r input : exec r input = None ↔ ¬ lang r input.
Proof.
  split.
  - intros Hn (m & Hm)%exec_complete. congruence.
  - intros Hl. destruct (exec r input) as [m|] eqn:Hm; [|done].
    destruct Hl. by eapply exec_sound.
Qed.

End Matcher.

(** ** parseGitHubUrl *)

(** The text before the first slash is determined. *)
Lemma first_slash_unique (a b x y : string) :
  all not_slash a = true → all not_slash b = true →
  a +:+ "/" +:+ x = b +:+ "/" +:+ y → a = b ∧ x = y.
Proof.
  revert b. induction a as [|c a IH]; intros [|d b]; simpl; intros Ha Hb Heq.
  - by simplify_eq.
  - by simplify_eq.
  - by simplify_eq.
  - apply andb_prop in Ha as [_ Ha]. apply andb_prop in Hb as [_ Hb].
    simplify_eq. destruct (IH b Ha Hb) as [-> ->]; done.
Qed.

Lemma take_app (seg rest : string) : take (String.length seg) (seg +:+ rest) = seg.
Proof.
  induction seg as [|c seg IH]; simpl; [by destruct rest|]. by rewrite IH.
Qed.

Lemma consumed_app (seg rest : string) : consumed (seg +:+ rest) rest = seg.
Proof.
  unfold consumed. rewrite length_append.
  replace (String.length seg + String.length rest - String.length rest)
    with (String.length seg) by lia.
  apply take_app.
Qed.

Lemma consumed_all (seg : string) : consumed seg "" = seg.
Proof. rewrite <- (append_nil_r seg) at 1. apply consumed_app. Qed.

Lemma more_greedy cls seg rest k m :
  seg ≠ "" → all cls seg = true → stops cls rest → k rest = Some m →
  more cls (seg +:+ rest) k = Some m.
Proof.
  intros Hne Hall Hstop Hk. induction seg as [|c seg IH]; [done|].
  simpl in *. apply andb_prop in Hall as [-> Hall].
  destruct seg as [|c' seg].
  - simpl. replace (more cls rest k) with (@None captures); [done|].
    destruct rest as [|d rest]; simpl in *; [done|]. by rewrite Hstop.
  - by rewrite IH.
Qed.

Lemma run_group_more n cls seg rest caps k m :
  seg ≠ "" → all cls seg = true → stops cls rest →
  k rest (<[n := seg]> caps) = Some m →
  run (Group n (OneOrMore cls)) (seg +:+ rest) caps k = Some m.
Proof.
  intros Hne Hall Hstop Hk. cbn [run].
  apply more_greedy; [done..|]. by rewrite consumed_app.
Qed.

Lemma run_lit l s caps k : run (Lit l) (l +:+ s) caps k = k s caps.
Proof. cbn [run]. by rewrite strip_prefix_app. Qed.

Lemma run_take r s caps k m :
  run r s caps k = Some m → run (Optional r) s caps k = Some m.
Proof. cbn [run]. by intros ->. Qed.

Section ParseFacts.
Variables o r : string.
Hypothesis segment_o : segment o.
Hypothesis segment_r : segment r.

Lemma exec_full_url (tail : string) caps' m :
  (∀ caps, caps !! 3 = None → caps !! 4 = None →
     run (Seq (Optional (Seq (Lit "/tree/") (Group 3 (OneOrMore not_slash))))
              (Optional (Seq (Lit "/") (Group 4 (OneOrMore dot)))))
         tail caps at_end = Some (caps' caps)) →
  stops not_slash tail →
  m = caps' (<[2 := r]> (<[1 := o]> ∅)) →
  exec full_url_pattern ("https://github.com/" +:+ o +:+ "/" +:+ r +:+ tail) = Some m.
Proof.
  intros Htail Hstop ->. destruct segment_o, segment_r.
  unfold exec, full_url_pattern.
  change ("https://github.com/" +:+ o +:+ "/" +:+ r +:+ tail)
    with ("http" +:+ "s" +:+ "://github.com/" +:+ o +:+ "/" +:+ r +:+ tail).
  cbn [run]. rewrite strip_prefix_app. rewrite strip_prefix_app.
  rewrite strip_prefix_app.
  erewrite more_greedy; [done | done | done | done |].
  rewrite strip_prefix_app.
  erewrite more_greedy; [done | done | done | done |].
  rewrite !consumed_app. apply (Htail (<[2 := r]> (<[1 := o]> ∅))); by simplify_map_eq.
Qed.

Lemma exec_full_rejects_shorthand (tail : string) :
  exec full_url_pattern (o +:+ "/" +:+ r +:+ tail) = None.
Proof.
  destruct segment_o as [_ Ho], segment_r as [Hr0 Hr].
  apply exec_None. unfold full_url_pattern. intros L.
  inversion L as [| |? ? s1 t1 L1 L2| | |]; subst. inversion L1; subst.
  inversion L2 as [| |? ? s2 t2 L3 L4| | |]; subst.
  inversion L4 as [| |? ? s3 t3 L5 L6| | |]; subst. inversion L5; subst.
  assert (s2 = "" ∨ s2 = "s") as Hs.
  { inversion L3; subst; [by left|]. right.
    match goal with H : lang (Lit _) _ |- _ => by inversion H end. }
  assert (∃ scheme, all not_slash scheme = true ∧
            scheme +:+ "/" +:+ ("/github.com/" +:+ t3) = o +:+ "/" +:+ r +:+ tail)
    as (scheme & Hscheme & Heq).
  { destruct Hs as [-> | ->]; [exists "http:" | exists "https:"]; by split. }
  destruct (first_slash_unique _ _ _ _ Hscheme Ho Heq) as [_ Hrest].
  destruct r as [|c r']; [done|]. simpl in Hrest. by simplify_eq.
Qed.

Lemma exec_shorthand (tail : string) caps' m :
  (∀ caps, caps !! 3 = None →
     run (Optional (Seq (Lit "/") (Group 3 (OneOrMore dot)))) tail caps at_end
       = Some (caps' caps)) →
  stops not_slash tail →
  m = caps' (<[2 := r]> (<[1 := o]> ∅)) →
  exec shorthand_pattern (o +:+ "/" +:+ r +:+ tail) = Some m.
Proof.
  intros Htail Hstop ->. destruct segment_o, segment_r.
  unfold exec, shorthand_pattern. cbn [run].
  erewrite more_greedy; [done | done | done | done |].
  rewrite strip_prefix_app.
  erewrite more_greedy; [done | done | done | done |].
  rewrite !consumed_app. apply (Htail (<[2 := r]> (<[1 := o]> ∅))); by simplify_map_eq.
Qed.

(** X1. A full URL [https://github.com/<owner>/<repo>] with nothing after
    the repository parses to that owner, the repository with its first
    [.git] removed, branch [main] and no subpath. *)
Lemma parse_url :
  parseGitHubUrl ("https://github.com/" +:+ o +:+ "/" +:+ r) =
    Done {| owner := o; repo := replace ".git" "" r; branch := "main";
            subpath := None |}.
Proof.
  unfold parseGitHubUrl, patterns, first_match.
  rewrite <- (append_nil_r r) at 1.
  erewrite (exec_full_url "" (λ caps, caps)); [|done..].
  unfold info_of_match. by simplify_map_eq.
Qed.

(** https://github.com/owner/repo/tree/branch *)
Lemma parse_url_tree (b : string) :
  segment b →
  parseGitHubUrl ("https://github.com/" +:+ o +:+ "/" +:+ r +:+ "/tree/" +:+ b) =
    Done {| owner := o; repo := replace ".git" "" r; branch := b;
            subpath := None |}.
Proof.
  intros [Hb0 Hb]. unfold parseGitHubUrl, patterns, first_match.
  erewrite (exec_full_url ("/tree/" +:+ b) (λ caps, <[3 := b]> caps)); [| |done..].
  - unfold info_of_match. simplify_map_eq. by destruct b.
  - intros caps _ _. cbn [run]. rewrite strip_prefix_app.
    rewrite <- (append_nil_r b) at 1.
    erewrite more_greedy; [done | done | done | done |].
    simpl. by rewrite consumed_all.
Qed.

(** X2. A full URL that goes on with [/tree/<branch>/<path>] parses to
    that branch, and everything after the slash that follows the branch,
    further slashes included, is the subpath. *)
Lemma parse_url_tree_subpath (b p : string) :
  segment b → p ≠ "" → all dot p = true →
  parseGitHubUrl ("https://github.com/" +:+ o +:+ "/" +:+ r +:+ "/tree/" +:+ b
                  +:+ "/" +:+ p) =
    Done {| owner := o; repo := replace ".git" "" r; branch := b;
            subpath := Some p |}.
Proof.
  intros [Hb0 Hb] Hp0 Hp. unfold parseGitHubUrl, patterns, first_match.
  erewrite (exec_full_url ("/tree/" +:+ b +:+ "/" +:+ p)
              (λ caps, <[4 := p]> (<[3 := b]> caps))); [| |done..].
  - unfold info_of_match. simplify_map_eq. by destruct b.
  - intros caps _ _. cbn [run]. rewrite strip_prefix_app.
    erewrite more_greedy; [done | done | done | done |].
    rewrite strip_prefix_app. rewrite <- (append_nil_r p) at 1.
    erewrite more_greedy; [done | done | done | done |].
    simpl. by rewrite ?consumed_all, ?consumed_app.
Qed.

(** X3. The shorthand [<owner>/<repo>] is not taken for a full URL, and
    parses to that owner and repository, branch [main] and no subpath. *)
Lemma parse_shorthand :
  parseGitHubUrl (o +:+ "/" +:+ r) =
    Done {| owner := o; repo := replace ".git" "" r; branch := "main";
            subpath := None |}.
Proof.
  unfold parseGitHubUrl, patterns, first_match.
  replace (o +:+ "/" +:+ r) with (o +:+ "/" +:+ r +:+ "")
    by (by rewrite append_nil_r).
  rewrite exec_full_rejects_shorthand.
  erewrite (exec_shorthand "" (λ caps, caps)); [|done..].
  unfold info_of_match. by simplify_map_eq.
Qed.

(** X4. In the shorthand [<owner>/<repo>/<rest>] everything after the
    second slash, further slashes included, is the branch; a shorthand
    never has a subpath. *)
Lemma parse_shorthand_branch (seg : string) :
  seg ≠ "" → all dot seg = true →
  parseGitHubUrl (o +:+ "/" +:+ r +:+ "/" +:+ seg) =
    Done {| owner := o; repo := replace ".git" "" r; branch := seg;
            subpath := None |}.
Proof.
  intros Hs0 Hs. unfold parseGitHubUrl, patterns, first_match.
  rewrite exec_full_rejects_shorthand.
  erewrite (exec_shorthand ("/" +:+ seg) (λ caps, <[3 := seg]> caps)); [| |done..].
  - unfold info_of_match. simplify_map_eq. by destruct seg.
  - intros caps _. cbn [run]. rewrite strip_prefix_app.
    rewrite <- (append_nil_r seg) at 1.
    erewrite more_greedy; [done | done | done | done |].
    simpl. by rewrite consumed_all.
Qed.

End ParseFacts.

(** C9. Every input that belongs to neither the full-URL grammar nor the
    shorthand grammar makes [parseGitHubUrl] throw, and the message is
    ["Invalid GitHub URL: "] followed by the input itself, unchanged; the
    empty string is such an input. *)
Theorem parseGitHubUrl_invalid_reference :
  (∀ input : string,
     ¬ JsRegExp.lang full_url_pattern input →
     ¬ JsRegExp.lang shorthand_pattern input →
     parseGitHubUrl input = Thrown ("Invalid GitHub URL: " +:+ input)) ∧
  parseGitHubUrl "" = Thrown "Invalid GitHub URL: ".
Proof.
  split; [|reflexivity].
  intros input Hfull Hshort. unfold parseGitHubUrl, patterns. simpl.
  apply exec_None in Hfull, Hshort. by rewrite Hfull, Hshort.
Qed.

Lemma parseGitHubUrl_invalid_reference_witness :
  parseGitHubUrl "invalid" = Thrown "Invalid GitHub URL: invalid".
Proof.
  apply (proj1 parseGitHubUrl_invalid_reference "invalid");
    apply exec_None; reflexivity.
Defined.

(** C7. On a repository name that has [.git] inside it, the code removes
    that first occurrence and leaves the trailing [.git] in place:
    [my.github.io.git] comes out as [myhub.io.git], not [my.github.io]. *)
Theorem parseGitHubUrl_git_inside_repo :
  parseGitHubUrl "https://github.com/owner/my.github.io.git" =
    Done {| owner := "owner"; repo := "myhub.io.git"; branch := "main";
            subpath := None |} ∧
  parseGitHubUrl "https://github.com/owner/my.github.io" =
    Done {| owner := "owner"; repo := "myhub.io"; branch := "main";
            subpath := None |}.
Proof. split; reflexivity. Qed.

(** ** The runtime *)

Ltac unfold_io :=
  cbv beta delta [bind ret throw exit try_catch attempt pathExists remove
    ensureDir symlink copy writeFile extract writeJson fetch readJson
    perform] in *.

Lemma present_record c w : present (record c w) = present w.
Proof. done. Qed.

Lemma bind_ret {A B} (a : A) (f : A → M B) : bind (ret a) f = f a.
Proof. done. Qed.

Lemma elem_of_ancestors h steps p : p ∈ ancestors h steps p.
Proof. destruct steps; simpl; [|case_match]; set_solver. Qed.

Lemma trace_record c w : trace (record c w) = trace w ++ [c].
Proof. done. Qed.

(** ** linkOrCopy *)

(** C2, as stated, fails: a source that is not there. The first call
    makes the link and reports success, but the link dangles and
    [fs.pathExists] answers false at the target. The second call therefore
    does not return ['Target already exists']: it goes on to the directory
    creation, the link, which is refused because the first link is in the
    way, and the copy, and is rejected with the error of the copy. *)
Lemma linkOrCopy_twice_dangling :
  (linkOrCopy Sample.gone "/src/skills/gone" "/work/.claude/skills/gone"
     symlink_method false (Sample.disk [])).1 =
    Done {| method := symlink_method; source := "/src/skills/gone";
            Link.target := "/work/.claude/skills/gone"; success := true;
            error := None |} ∧
  (pathExists "/work/.claude/skills/gone"
     (linkOrCopy Sample.gone "/src/skills/gone" "/work/.claude/skills/gone"
        symlink_method false (Sample.disk [])).2).1 = Done false ∧
  (linkOrCopy Sample.gone "/src/skills/gone" "/work/.claude/skills/gone"
     symlink_method false
     (linkOrCopy Sample.gone "/src/skills/gone" "/work/.claude/skills/gone"
        symlink_method false (Sample.disk [])).2).1 =
    Thrown "ENOENT: no such file or directory, lstat '/src/skills/gone'" ∧
  trace
    (linkOrCopy Sample.gone "/src/skills/gone" "/work/.claude/skills/gone"
       symlink_method false
       (linkOrCopy Sample.gone "/src/skills/gone" "/work/.claude/skills/gone"
          symlink_method false (Sample.disk [])).2).2 =
    [PathExists "/work/.claude/skills/gone"; EnsureDir "/work/.claude/skills";
     Symlink "/src/skills/gone" "/work/.claude/skills/gone";
     PathExists "/work/.claude/skills/gone"; EnsureDir "/work/.claude/skills";
     Symlink "/src/skills/gone" "/work/.claude/skills/gone";
     Copy "/src/skills/gone" "/work/.claude/skills/gone"].
Proof. vm_compute. done. Qed.

Section LinkFacts.
Variable h : Host.t.
Variables src tgt : string.

Lemma linkOrCopy_present method w :
  tgt ∈ present w →
  linkOrCopy h src tgt method false w =
    (Done {| method := method; source := src; Link.target := tgt;
             success := false; error := Some "Target already exists" |},
     record (PathExists tgt) w).
Proof.
  intros Hin. unfold linkOrCopy. unfold_io. simpl.
  by rewrite bool_decide_true.
Qed.

(** A success leaves the target in place when it was copied, or when the
    link that was made resolves. *)
Lemma linkOrCopy_places method w r w' :
  linkOrCopy h src tgt method false w = (Done r, w') →
  success r = true →
  method = copy_method ∨ link_dest h src tgt ∈ present w →
  tgt ∈ present w'.
Proof.
  unfold linkOrCopy. unfold_io. intros H Hs Hlive.
  repeat (case_match; simplify_eq/=).
  all: try (simpl; set_solver).
  all: destruct Hlive as [->|Hlive]; [done|].
  all: match goal with
       | Hd : bool_decide (link_dest _ _ _ ∈ _) = false |- _ =>
           apply bool_decide_eq_false in Hd; destruct Hd; simpl; set_solver
       end.
Qed.

Lemma linkOrCopy_fresh method w :
  tgt ∉ present w →
  fault h (EnsureDir (dirname h tgt)) = None →
  fault h (Copy src tgt) = None →
  ∃ r w', linkOrCopy h src tgt method false w = (Done r, w') ∧ success r = true.
Proof.
  intros Hout Hdir Hcopy. unfold linkOrCopy. unfold_io. simpl.
  rewrite bool_decide_false, Hdir by done.
  repeat (case_match; simplify_eq/=); rewrite ?Hcopy; eauto.
Qed.

(** C2, amended. On a target that is not there yet, with a source that is
    there where a link at the target looks for it (or with the method
    [copy]), and with the directory creation and the copy not failing, a
    first [linkOrCopy] without [force] succeeds; a second one with the same
    arguments then returns, without throwing, the failure
    ['Target already exists'], and all it does is the one existence probe:
    nothing is removed, created, linked or copied. *)
Theorem linkOrCopy_twice method w :
  tgt ∉ present w →
  method = copy_method ∨ link_dest h src tgt ∈ present w →
  fault h (EnsureDir (dirname h tgt)) = None →
  fault h (Copy src tgt) = None →
  ∃ r1 w1,
    linkOrCopy h src tgt method false w = (Done r1, w1) ∧
    success r1 = true ∧
    linkOrCopy h src tgt method false w1 =
      (Done {| method := method; source := src; Link.target := tgt;
               success := false; error := Some "Target already exists" |},
       record (PathExists tgt) w1).
Proof.
  intros Hout Hlive Hdir Hcopy.
  destruct (linkOrCopy_fresh method w Hout Hdir Hcopy) as (r1 & w1 & Hrun & Hok).
  exists r1, w1. split_and!; [done..|].
  apply linkOrCopy_present. by eapply linkOrCopy_places.
Qed.


End LinkFacts.

(** ** The existence matrix *)

Section MatrixFacts.
Variable h : Host.t.

Lemma probe_targets_ok item_id dirs (row : gmap string bool) w :
  ∃ row' w',
    probe_targets h item_id dirs row w = (Done row', w') ∧
    present w' = present w ∧
    ∀ d, row' !! d =
         if decide (d ∈ dirs) then Some (probe h w d item_id) else row !! d.
Proof.
  revert row w. induction dirs as [|d0 dirs IH]; intros row w; cbn [probe_targets].
  - exists row, w. split_and!; [done..|]. intros d. by rewrite decide_False by set_solver.
  - unfold bind, pathExists.
    destruct (IH (<[d0 := bool_decide (join h [d0; item_id] ∈ present w)]> row)
                (record (PathExists (join h [d0; item_id])) w))
      as (row' & w' & -> & Hp & Hrow).
    exists row', w'. split_and!; [done..|]. intros d. rewrite Hrow.
    destruct (decide (d ∈ dirs)) as [Hin|Hout].
    + by rewrite decide_True by set_solver.
    + destruct (decide (d = d0)) as [->|Hne].
      * rewrite decide_True by set_solver. by rewrite lookup_insert_eq.
      * rewrite decide_False by set_solver. by rewrite lookup_insert_ne.
Qed.

Lemma probe_items_ok items dirs (acc : gmap string (gmap string bool)) w :
  ∃ matrix w',
    probe_items h items dirs acc w = (Done matrix, w') ∧
    present w' = present w ∧
    ∀ i,
      (i ∈ Prompts.id <$> items →
       ∃ row, matrix !! i = Some row ∧
         ∀ d, row !! d = if decide (d ∈ dirs) then Some (probe h w d i) else None) ∧
      (i ∉ Prompts.id <$> items → matrix !! i = acc !! i).
Proof.
  revert acc w. induction items as [|item items IH]; intros acc w; cbn [probe_items].
  - exists acc, w. split_and!; [done..|]. intros i. split; [|done]. by intros ?%elem_of_nil.
  - unfold bind.
    destruct (probe_targets_ok (Prompts.id item) dirs ∅ w) as (row0 & w1 & -> & Hp1 & Hrow0).
    destruct (IH (<[Prompts.id item := row0]> acc) w1) as (matrix & w' & -> & Hp & Hm).
    exists matrix, w'. split_and!; [done | congruence |]. intros i.
    assert (∀ d, probe h w1 d i = probe h w d i) as Hsame.
    { intros d. unfold probe. by rewrite Hp1. }
    destruct (decide (i ∈ Prompts.id <$> items)) as [Hin|Hout].
    + split; [|set_solver]. intros _.
      destruct (proj1 (Hm i) Hin) as (row & Hrow & Hd). exists row. split; [done|].
      intros d. rewrite Hd. by rewrite Hsame.
    + rewrite (proj2 (Hm i) Hout). split.
      * intros Hi. assert (i = Prompts.id item) as -> by set_solver.
        exists row0. rewrite lookup_insert_eq. split; [done|]. intros d.
        rewrite Hrow0. by rewrite lookup_empty.
      * intros Hi. rewrite lookup_insert_ne; [done|]. set_solver.
Qed.

Lemma entry_probed items dirs w matrix w' item dir :
  probe_items h items dirs ∅ w = (Done matrix, w') →
  item ∈ items → dir ∈ dirs →
  entry matrix (Prompts.id item) dir = Some (probe h w dir (Prompts.id item)).
Proof.
  intros Hrun Hitem Hdir.
  destruct (probe_items_ok items dirs ∅ w) as (m & w1 & Hrun' & _ & Hm).
  rewrite Hrun in Hrun'. simplify_eq.
  destruct (proj1 (Hm (Prompts.id item))) as (row & Hrow & Hd).
  { by apply list_elem_of_fmap_2. }
  unfold entry. rewrite Hrow. simpl. rewrite Hd. by rewrite decide_True.
Qed.

End MatrixFacts.

(** ** selectItemsWithExistenceCheck *)

Lemma filter_ext_elem {A} (P Q : A → Prop)
    `{!∀ x, Decision (P x)} `{!∀ x, Decision (Q x)} (l : list A) :
  (∀ x, x ∈ l → P x ↔ Q x) → filter P l = filter Q l.
Proof.
  induction l as [|x l IH]; intros Hpq; [done|].
  rewrite !filter_cons, IH by (intros y Hy; apply Hpq; set_solver).
  destruct (decide (P x)) as [Hp|Hp], (decide (Q x)) as [Hq|Hq]; try done;
    destruct (Hpq x); set_solver.
Qed.

Lemma some_value_true (row : gmap string bool) :
  some_value row = true ↔ ∃ d, row !! d = Some true.
Proof.
  unfold some_value. rewrite existsb_exists. split.
  - intros ([d b] & Hin & Hb). simpl in Hb. subst b. exists d.
    by apply elem_of_map_to_list, list_elem_of_In.
  - intros (d & Hd). exists (d, true). split; [|done].
    by apply list_elem_of_In, elem_of_map_to_list.
Qed.

Section SelectionFacts.
Variable h : Host.t.

Lemma selectItems_unfold items mode dirs selectAll response w :
  ∃ matrix w1,
    probe_items h items dirs ∅ w = (Done matrix, w1) ∧
    selectItemsWithExistenceCheck h items mode dirs selectAll response w =
      if selectAll then
        (Done {| selected :=
                   if is_install mode
                   then filter (λ i, existsInAny matrix (Prompts.id i) = false) items
                   else items;
                 existsInTargets := matrix |}, w1)
      else
        match response with
        | Cancelled => (Exited 0, w1)
        | Answered ids =>
            (Done {| selected := filter (λ i, Prompts.id i ∈ ids) items;
                     existsInTargets := matrix |}, w1)
        end.
Proof.
  destruct (probe_items_ok h items dirs ∅ w) as (matrix & w1 & Hrun & _).
  exists matrix, w1. split; [done|].
  unfold selectItemsWithExistenceCheck, bind. rewrite Hrun.
  destruct selectAll; [by destruct mode|]. by destruct response.
Qed.

Lemma existsInAny_false items dirs w matrix w' item :
  probe_items h items dirs ∅ w = (Done matrix, w') → item ∈ items →
  existsInAny matrix (Prompts.id item) = false ↔
  ∀ d, d ∈ dirs → probe h w d (Prompts.id item) = false.
Proof.
  intros Hrun Hitem.
  destruct (probe_items_ok h items dirs ∅ w) as (m & w1 & Hrun' & _ & Hm).
  rewrite Hrun in Hrun'. simplify_eq.
  destruct (proj1 (Hm (Prompts.id item))) as (row & Hrow & Hd).
  { by apply list_elem_of_fmap_2. }
  unfold existsInAny. rewrite Hrow. rewrite <- not_true_iff_false, some_value_true.
  split.
  - intros Hnone d Hin. apply not_true_iff_false. intros Hp. apply Hnone.
    exists d. rewrite Hd, decide_True by done. by rewrite Hp.
  - intros Hall (d & Hdt). rewrite Hd in Hdt.
    destruct (decide (d ∈ dirs)) as [Hin|]; [|done].
    rewrite (Hall d Hin) in Hdt. done.
Qed.

Lemma absent_everywhere_true items dirs w matrix w' item :
  probe_items h items dirs ∅ w = (Done matrix, w') → item ∈ items →
  absent_everywhere matrix dirs (Prompts.id item) = true ↔
  ∀ d, d ∈ dirs → probe h w d (Prompts.id item) = false.
Proof.
  intros Hrun Hitem. unfold absent_everywhere. rewrite forallb_forall.
  split; intros Hall d Hin.
  - pose proof Hin as Hentry.
    apply list_elem_of_In, Hall, bool_decide_eq_true in Hentry.
    rewrite (entry_probed h items dirs w matrix w' item d Hrun Hitem Hin) in Hentry.
    congruence.
  - apply list_elem_of_In in Hin. apply bool_decide_eq_true.
    rewrite (entry_probed h items dirs w matrix w' item d Hrun Hitem Hin).
    by rewrite Hall.
Qed.


(** C5. With the select-all flag set, [install] mode returns, in order,
    exactly the discovered items whose matrix row is false for every
    target, that is the items present in none of the targets; [update]
    mode returns all the discovered items. *)
Theorem select_all_returns items mode targetDirs response w :
  ∃ matrix sel w',
    selectItemsWithExistenceCheck h items mode targetDirs true response w =
      (Done {| selected := sel; existsInTargets := matrix |}, w') ∧
    (mode = update → sel = items) ∧
    (mode = install →
       sel = filter (λ i, absent_everywhere matrix targetDirs (Prompts.id i) = true) items ∧
       ∀ item, item ∈ sel ↔
         item ∈ items ∧
         ∀ dir, dir ∈ targetDirs → join h [dir; Prompts.id item] ∉ present w).
Proof.
  destruct (selectItems_unfold items mode targetDirs true response w)
    as (matrix & w1 & Hrun & Heq).
  eexists matrix, _, w1. split; [exact Heq|].
  split; intros ->; simpl; [done|].
  split.
  - apply filter_ext_elem. intros item Hi.
    by rewrite (existsInAny_false items targetDirs w matrix w1),
      (absent_everywhere_true items targetDirs w matrix w1).
  - intros item. rewrite list_elem_of_filter. split.
    + intros [Hany Hi]. split; [done|].
      intros dir Hd. eapply existsInAny_false in Hany; [|done..].
      unfold probe in Hany. by apply bool_decide_eq_false in Hany.
    + intros [Hi Hall]. split; [|done].
      eapply existsInAny_false; [done..|]. intros d Hd.
      unfold probe. by apply bool_decide_eq_false, Hall.
Qed.

End SelectionFacts.

(** ** The per-target loop of installCommand *)

Lemma linkOrCopy_no_exit h src tgt method force w c w' :
  linkOrCopy h src tgt method force w ≠ (Exited c, w').
Proof.
  unfold linkOrCopy. unfold_io. intros H.
  repeat (case_match; simplify_eq/=).
Qed.

Section LoopFacts.
Variable h : Host.t.
Variable mode : Mode.
Variable method : LinkMethod.
Variable force : bool.
Variable existenceMaps : list (ArtifactType * gmap string (gmap string bool)).

#[local] Abbreviation install_item := (Install.install_item h mode method force existenceMaps).
#[local] Abbreviation install_items := (Install.install_items h mode method force existenceMaps).
#[local] Abbreviation install_entries := (Install.install_entries h mode method force existenceMaps).
#[local] Abbreviation install_targets := (Install.install_targets h mode method force existenceMaps).

Lemma install_item_inherited name type item summary w :
  ∃ e, install_item (Inherited name) type item summary w = (Thrown e, w).
Proof. by eexists. Qed.

Lemma install_item_steps (targetConfig : TargetConfig) type item summary w :
  ∃ summary' w',
    install_item targetConfig type item summary w = (Done summary', w') ∧
    (summary' = count_installed summary ∨
     summary' = count_skipped summary ∨
     summary' = count_failed summary).
Proof.
  unfold Install.install_item. cbn [dir_at join_cwd]. rewrite bind_ret.
  destruct (is_install mode && _).
  - eexists _, _. split; [reflexivity|]. auto.
  - unfold try_catch, bind.
    destruct (linkOrCopy _ _ _ _ _ _) as [[r|e|c] w1] eqn:Hl.
    + destruct (success r); eexists _, _; (split; [reflexivity|]); auto.
    + eexists _, _. split; [reflexivity|]. auto.
    + exfalso. by eapply linkOrCopy_no_exit.
Qed.

Lemma install_items_total (targetConfig : TargetConfig) type items summary w :
  ∃ summary' w',
    install_items targetConfig type items summary w = (Done summary', w') ∧
    Install.target summary' = Install.target summary ∧
    installed summary ≤ installed summary' ∧
    skipped summary ≤ skipped summary' ∧
    failed summary ≤ failed summary' ∧
    total summary' = total summary + length items.
Proof.
  revert summary w. induction items as [|item items IH]; intros summary w;
    cbn [Install.install_items].
  - exists summary, w. unfold ret. split_and!; [done..|]. simpl. lia.
  - unfold bind.
    destruct (install_item_steps targetConfig type item summary w)
      as (s1 & w1 & -> & Hs1).
    destruct (IH s1 w1) as (s2 & w2 & -> & Hk & Hi & Hsk & Hf & Ht).
    exists s2, w2. unfold total in *.
    destruct Hs1 as [-> | [-> | ->]]; simpl in *; split_and!; (done || lia).
Qed.

Lemma install_entries_total (targetConfig : TargetConfig) entries summary w :
  ∃ summary' w',
    install_entries targetConfig entries summary w = (Done summary', w') ∧
    Install.target summary' = Install.target summary ∧
    installed summary ≤ installed summary' ∧
    skipped summary ≤ skipped summary' ∧
    failed summary ≤ failed summary' ∧
    total summary' = total summary + length (flat entries).
Proof.
  revert summary w. induction entries as [|[type items] entries IH];
    intros summary w; cbn [Install.install_entries].
  - exists summary, w. unfold ret. split_and!; [done..|]. simpl. lia.
  - unfold bind.
    destruct (install_items_total targetConfig type items summary w)
      as (s1 & w1 & -> & Hk1 & Hi1 & Hsk1 & Hf1 & Ht1).
    destruct (IH s1 w1) as (s2 & w2 & -> & Hk & Hi & Hsk & Hf & Ht).
    exists s2, w2.
    change (flat ((type, items) :: entries)) with (items ++ flat entries).
    rewrite length_app. unfold total in *.
    split_and!; (done || congruence || lia).
Qed.

Lemma install_targets_total targetConfigs selected summaries w :
  ∃ news w',
    install_targets (as_entries targetConfigs) selected summaries w
      = (Done (summaries ++ news), w') ∧
    Install.target <$> news = fst <$> targetConfigs ∧
    Forall (λ s, total s = length (flat selected)) news.
Proof.
  revert summaries w.
  induction targetConfigs as [|[targetKey targetConfig] targetConfigs IH];
    intros summaries w.
  - exists [], w. unfold ret. by rewrite app_nil_r.
  - unfold as_entries. rewrite fmap_cons. fold (as_entries targetConfigs).
    cbn [Install.install_targets fst snd]. unfold bind.
    destruct (install_entries_total targetConfig selected (new_summary targetKey) w)
      as (s1 & w1 & -> & Hk1 & _ & _ & _ & Ht1).
    destruct (IH (summaries ++ [s1]) w1) as (news & w2 & -> & Hk & Hall).
    exists (s1 :: news), w2. rewrite <- app_assoc. split_and!; [done | |].
    + rewrite !fmap_cons. by rewrite Hk1, Hk.
    + constructor; [|done]. by rewrite Ht1.
Qed.

Lemma install_items_accounts (targetConfig : Entry) type items summary w
    summary' w' :
  install_items targetConfig type items summary w = (Done summary', w') →
  Install.target summary' = Install.target summary ∧
  total summary' = total summary + length items.
Proof.
  destruct targetConfig as [config|name].
  - destruct (install_items_total config type items summary w)
      as (s & w1 & -> & Hk & _ & _ & _ & Ht).
    by intros [= <- <-].
  - destruct items as [|item items]; cbn [Install.install_items].
    + unfold ret. intros [= <- <-]. simpl. split; [done|lia].
    + unfold bind.
      by destruct (install_item_inherited name type item summary w) as [e ->].
Qed.

Lemma install_entries_accounts (targetConfig : Entry) entries summary w
    summary' w' :
  install_entries targetConfig entries summary w = (Done summary', w') →
  Install.target summary' = Install.target summary ∧
  total summary' = total summary + length (flat entries).
Proof.
  revert summary w. induction entries as [|[type items] entries IH];
    intros summary w; cbn [Install.install_entries].
  - unfold ret. intros [= <- <-]. simpl. split; [done|lia].
  - unfold bind.
    destruct (Install.install_items _ _ _ _ _ _ _ _ _ _) as [[s1|e|c] w1] eqn:Hi;
      [|done..].
    apply install_items_accounts in Hi as [Hk1 Ht1].
    intros [Hk Ht]%IH.
    change (flat ((type, items) :: entries)) with (items ++ flat entries).
    rewrite length_app. split; [congruence|lia].
Qed.

Lemma install_targets_accounts (targetConfigs : list (string * Entry)) selected
    summaries w out w' :
  install_targets targetConfigs selected summaries w = (Done out, w') →
  ∃ news, out = summaries ++ news ∧
    Install.target <$> news = fst <$> targetConfigs ∧
    Forall (λ s, total s = length (flat selected)) news.
Proof.
  revert summaries w.
  induction targetConfigs as [|[targetKey targetConfig] targetConfigs IH];
    intros summaries w; cbn [Install.install_targets].
  - unfold ret. intros [= <- <-]. exists []. by rewrite app_nil_r.
  - unfold bind.
    destruct (Install.install_entries _ _ _ _ _ _ _ _ _) as [[s1|e|c] w1] eqn:Hi;
      [|done..].
    apply install_entries_accounts in Hi as [Hk1 Ht1].
    intros (news & -> & Hk & Hall)%IH.
    exists (s1 :: news). rewrite <- app_assoc. split_and!; [done| |].
    + rewrite !fmap_cons. by rewrite Hk1, Hk.
    + constructor; [|done]. by rewrite Ht1.
Qed.

(** C6. Every (item, target) pair resolves and bumps exactly one of the
    three counters by one; the loop over the targets always runs to its
    end, yields one summary per target, in order, and in each of them
    installed + skipped + failed is the number of selected items over all
    the artifact types. The same count holds whenever the loop completes
    on whatever [getTargetConfig] returned. *)
Theorem summary_accounts_for_every_item :
  (∀ (targetConfig : TargetConfig) type item summary w,
     ∃ summary' w',
       install_item targetConfig type item summary w = (Done summary', w') ∧
       (summary' = count_installed summary ∨
        summary' = count_skipped summary ∨
        summary' = count_failed summary)) ∧
  (∀ (targetConfigs : list (string * TargetConfig)) selected w,
     ∃ summaries w',
       install_targets (as_entries targetConfigs) selected [] w
         = (Done summaries, w') ∧
       Install.target <$> summaries = fst <$> targetConfigs ∧
       Forall (λ s, installed s + skipped s + failed s = length (flat selected))
         summaries) ∧
  (∀ (targetConfigs : list (string * Entry)) selected w summaries w',
     install_targets targetConfigs selected [] w = (Done summaries, w') →
     Install.target <$> summaries = fst <$> targetConfigs ∧
     Forall (λ s, installed s + skipped s + failed s = length (flat selected))
       summaries).
Proof.
  split_and!.
  - apply install_item_steps.
  - intros targetConfigs selected w.
    destruct (install_targets_total targetConfigs selected [] w)
      as (news & w' & Hrun & Hk & Hall).
    by exists news, w'.
  - intros targetConfigs selected w summaries w' Hrun.
    destruct (install_targets_accounts targetConfigs selected [] w summaries w' Hrun)
      as (news & -> & Hk & Hall).
    done.
Qed.

End LoopFacts.

(** ** Install mode and the existence matrix *)

Lemma get_prop_set_prop_nil {V} (type : ArtifactType) (v : V) :
  get_prop (set_prop [] type v) type = Some v.
Proof. simpl. by rewrite decide_True. Qed.

Lemma install_item_skip (h : Host.t) method force existenceMaps
    (targetConfig : TargetConfig) type item summary w rows
    (row : gmap string bool) :
  get_prop existenceMaps type = Some rows →
  rows !! Prompts.id item = Some row →
  row !! join h [cwd h; dir_of targetConfig type] = Some true →
  install_item h install method force existenceMaps targetConfig type item
    summary w = (Done (count_skipped summary), w).
Proof.
  intros Hrows Hrow Hentry.
  unfold install_item. cbn [dir_at join_cwd]. rewrite bind_ret.
  rewrite Hrows. simpl. rewrite Hrow. simpl.
  by rewrite Hentry.
Qed.

Lemma install_item_fresh (h : Host.t) method existenceMaps
    (targetConfig : TargetConfig) type item summary w rows
    (row : gmap string bool) :
  let targetDir := join h [cwd h; dir_of targetConfig type] in
  get_prop existenceMaps type = Some rows →
  rows !! Prompts.id item = Some row →
  row !! targetDir = Some false →
  join h [targetDir; Prompts.id item] ∉ present w →
  fault h (EnsureDir (dirname h (join h [targetDir; Prompts.id item]))) = None →
  fault h (Copy (dirname h (Prompts.path item))
                (join h [targetDir; Prompts.id item])) = None →
  ∃ w',
    install_item h install method false existenceMaps targetConfig type item
      summary w = (Done (count_installed summary), w').
Proof.
  intros targetDir Hrows Hrow Hentry Hout Hdir Hcopy.
  unfold install_item. cbn [dir_at join_cwd]. rewrite bind_ret.
  rewrite Hrows. simpl. rewrite Hrow. simpl.
  fold targetDir. rewrite Hentry. simpl. unfold try_catch, bind.
  destruct (linkOrCopy_fresh h (dirname h (Prompts.path item))
              (join h [targetDir; Prompts.id item]) method w Hout Hdir Hcopy)
    as (r & w' & -> & ->).
  by exists w'.
Qed.

(** C1. In install mode a pair whose matrix entry is true bumps the
    skipped counter of that target and makes no call at all, so no link or
    copy is attempted. In particular one item, picked by the user and sent
    to two targets that [getTargetConfig] resolves to a configuration, of
    which only the first holds the item already, ends with skipped = 1 for
    the first target and installed = 1 for the second. *)
Theorem install_skips_what_is_present (h : Host.t) :
  (∀ method force existenceMaps (targetConfig : TargetConfig) type item summary
     w rows (row : gmap string bool),
     get_prop existenceMaps type = Some rows →
     rows !! Prompts.id item = Some row →
     row !! join h [cwd h; dir_of targetConfig type] = Some true →
     install_item h install method force existenceMaps targetConfig type item
       summary w = (Done (count_skipped summary), w)) ∧
  (∀ method key1 key2 config1 config2 type item w,
     getTargetConfig key1 = Config config1 →
     getTargetConfig key2 = Config config2 →
     let dir1 := join h [cwd h; dir_of config1 type] in
     let dir2 := join h [cwd h; dir_of config2 type] in
     join h [dir1; Prompts.id item] ∈ present w →
     join h [dir2; Prompts.id item] ∉ present w →
     fault h (EnsureDir (dirname h (join h [dir2; Prompts.id item]))) = None →
     fault h (Copy (dirname h (Prompts.path item))
                   (join h [dir2; Prompts.id item])) = None →
     ∃ s1 s2 w',
       installCommand h install false method [key1; key2] [type]
         [(type, [item])] (λ _, Answered [Prompts.id item]) (Answered true) w
         = (Done (Completed [s1; s2]), w') ∧
       Install.target s1 = key1 ∧ skipped s1 = 1 ∧ installed s1 = 0 ∧ failed s1 = 0 ∧
       Install.target s2 = key2 ∧ installed s2 = 1 ∧ skipped s2 = 0 ∧ failed s2 = 0).
Proof.
  split; [intros; by eapply install_item_skip|].
  intros method key1 key2 config1 config2 type item w Hkey1 Hkey2 dir1 dir2
    Hin Hout Hdir Hcopy.
  assert (dir1 ≠ dir2) as Hne by (intros Heq; rewrite Heq in Hin; done).
  unfold installCommand. cbn [fmap list_fmap]. rewrite Hkey1, Hkey2.
  unfold try_catch, bind.
  cbn [select_types target_dirs dir_at join_cwd get_prop snd].
  rewrite decide_True by done. unfold bind, ret. fold dir1 dir2.
  destruct (selectItems_unfold h [item] install [dir1; dir2] false
              (Answered [Prompts.id item]) w) as (matrix & w1 & Hrun & ->).
  destruct (probe_items_ok h [item] [dir1; dir2] ∅ w) as (m & w2 & Hrun' & Hp & Hm).
  rewrite Hrun in Hrun'. injection Hrun' as <- <-.
  destruct (proj1 (Hm (Prompts.id item))) as (row & Hrow & Hd); [set_solver|].
  rewrite filter_cons_True, filter_nil by set_solver.
  unfold ret, handleCancel. cbn [fst snd selected existsInTargets set_prop flat
    fmap list_fmap concat length app Nat.eqb negb is_install].
  cbn [install_targets install_entries install_items]. unfold bind, ret.
  change (negb true) with false. cbv beta iota.
  rewrite (install_item_skip h method false _ config1 type item
             (new_summary key1) w1 matrix row).
  2: apply (get_prop_set_prop_nil type matrix).
  2: done.
  2: { fold dir1. rewrite Hd, decide_True by set_solver. unfold probe.
       by rewrite bool_decide_true. }
  destruct (install_item_fresh h method [(type, matrix)]
              config2 type item (new_summary key2) w1 matrix row)
    as (w' & ->).
  { apply (get_prop_set_prop_nil type matrix). }
  { done. }
  { fold dir2. rewrite Hd, decide_True by set_solver. unfold probe.
    by rewrite bool_decide_false. }
  { fold dir2. by rewrite Hp. }
  { done. }
  { done. }
  by eexists _, _, w'.
Qed.

(** ** fetchRepo *)

(** C8, as stated, fails: with the network down, the download for [main]
    rejects and [fetchRepo] rejects with it at once; [master] is never
    tried and the error is the network's own. *)
Lemma fetchRepo_network_error_no_retry :
  parseGitHubUrl "owner/repo" =
    Done {| owner := "owner"; repo := "repo"; branch := "main"; subpath := None |} ∧
  (fetchRepo Sample.offline "owner/repo" (Sample.disk [])).1 = Thrown "fetch failed" ∧
  fetched (trace (fetchRepo Sample.offline "owner/repo" (Sample.disk [])).2) =
    ["https://github.com/owner/repo/archive/main.tar.gz"].
Proof. vm_compute. done. Qed.

Section FetchFacts.
Variable h : Host.t.

(** C8, amended. For a reference that is not a local path, parses, and
    whose temporary directory can be made: a network error on the first
    download makes [fetchRepo] fail at once with that error and nothing
    else is downloaded. A non-success status on the first download is
    followed, when the branch is [main], by exactly one more download, for
    [master]: a network error there fails with that error, a non-success
    status there fails with ['Failed to fetch: Repository not found or not
    accessible']; for any other branch there is no second download and the
    same error is thrown. *)
Theorem fetchRepo_branch_fallback input info w :
  input ∉ present w →
  parseGitHubUrl input = Done info →
  fault h (EnsureDir (join h [tmpdir h; "agent-share";
             owner info +:+ "-" +:+ repo info +:+ "-" +:+ pretty (now h)])) = None →
  ∃ out w' calls,
    fetchRepo h input w = (out, w') ∧
    trace w' = trace w ++ calls ∧
    match fault h (Fetch (tarUrl (owner info) (repo info) (branch info))) with
    | Some e =>
        out = Thrown e ∧
        fetched calls = [tarUrl (owner info) (repo info) (branch info)]
    | None =>
        if ok (http h (tarUrl (owner info) (repo info) (branch info))) then
          fetched calls = [tarUrl (owner info) (repo info) (branch info)]
        else if String.eqb (branch info) "main" then
          fetched calls = [tarUrl (owner info) (repo info) "main";
                           tarUrl (owner info) (repo info) "master"] ∧
          match fault h (Fetch (tarUrl (owner info) (repo info) "master")) with
          | Some e => out = Thrown e
          | None =>
              ok (http h (tarUrl (owner info) (repo info) "master")) = false →
              out = Thrown "Failed to fetch: Repository not found or not accessible"
          end
        else
          fetched calls = [tarUrl (owner info) (repo info) (branch info)] ∧
          out = Thrown "Failed to fetch: Repository not found or not accessible"
    end.
Proof.
  intros Hlocal Hparse Hdir.
  unfold fetchRepo. unfold_io. rewrite bool_decide_false by done.
  rewrite Hparse. cbv beta iota. rewrite Hdir.
  destruct (String.eqb_spec (branch info) "main") as [Hmain|Hother].
  - rewrite Hmain. cbn [try_branches]. unfold_io.
    repeat (case_match; simplify_eq/=).
    all: eexists _, _, _; split; [reflexivity|]; split;
      [simpl; by rewrite <- ?(assoc_L (++))|]; simpl; done.
  - cbn [try_branches]. unfold_io.
    repeat (case_match; simplify_eq/=).
    all: eexists _, _, _; split; [reflexivity|]; split;
      [simpl; by rewrite <- ?(assoc_L (++))|]; simpl; done.
Qed.

End FetchFacts.

(** ** setConfig *)

Section ConfigFacts.
Variable h : Host.t.

Lemma getConfig_reads w :
  fault h (ReadJson (CONFIG_PATH h)) = None →
  getConfig h w =
    (Done (if bool_decide (CONFIG_PATH h ∈ present w)
           then default ∅ (json w !! CONFIG_PATH h) else ∅),
     if bool_decide (CONFIG_PATH h ∈ present w)
     then record (ReadJson (CONFIG_PATH h)) (record (PathExists (CONFIG_PATH h)) w)
     else record (PathExists (CONFIG_PATH h)) w).
Proof.
  intros Hread. unfold getConfig. unfold_io. simpl. rewrite Hread.
  destruct (bool_decide (CONFIG_PATH h ∈ present w)) eqn:E; simpl; rewrite ?E;
    [|done].
  by destruct (json w !! CONFIG_PATH h).
Qed.


End ConfigFacts.

(** * Part III: the theorems at work on concrete runs *)

Ltac by_compute :=
  first [ apply (proj1 (bool_decide_eq_true _))
        | apply (proj1 (bool_decide_eq_false _)) ];
  vm_compute; reflexivity.

Lemma linkOrCopy_twice_witness :
  ∃ r1 w1,
    linkOrCopy Sample.linux "/src/skills/foo" "/work/.claude/skills/foo"
      symlink_method false
      (Sample.disk ["/src/skills/foo"; "/work/.claude/skills/bar"])
      = (Done r1, w1) ∧
    success r1 = true ∧
    linkOrCopy Sample.linux "/src/skills/foo" "/work/.claude/skills/foo"
      symlink_method false w1 =
      (Done {| method := symlink_method; source := "/src/skills/foo";
               Link.target := "/work/.claude/skills/foo"; success := false;
               error := Some "Target already exists" |},
       record (PathExists "/work/.claude/skills/foo") w1).
Proof.
  apply (linkOrCopy_twice Sample.linux "/src/skills/foo"
           "/work/.claude/skills/foo" symlink_method
           (Sample.disk ["/src/skills/foo"; "/work/.claude/skills/bar"]));
    [by_compute | right; by_compute | reflexivity | reflexivity].
Defined.



Lemma select_all_returns_witness :
  ∃ matrix sel w',
    selectItemsWithExistenceCheck Sample.linux [Sample.foo; Sample.bar] install
      ["/work/.claude/skills"; "/work/.cursor/skills"] true Cancelled
      (Sample.disk ["/work/.cursor/skills/foo"])
      = (Done {| selected := sel; existsInTargets := matrix |}, w') ∧
    Sample.bar ∈ sel ∧ Sample.foo ∉ sel.
Proof.
  destruct (select_all_returns Sample.linux [Sample.foo; Sample.bar] install
              ["/work/.claude/skills"; "/work/.cursor/skills"] Cancelled
              (Sample.disk ["/work/.cursor/skills/foo"]))
    as (matrix & sel & w' & Hrun & _ & Hinstall).
  destruct (Hinstall eq_refl) as [_ Hmem].
  exists matrix, sel, w'. split; [exact Hrun|]. split.
  - apply Hmem. split; [apply list_elem_of_further, list_elem_of_here|].
    intros dir Hd.
    apply elem_of_cons in Hd as [->|Hd]; [by_compute|].
    apply elem_of_cons in Hd as [->|Hd]; [by_compute|].
    destruct (proj1 (elem_of_nil _) Hd).
  - intros [_ Hnone]%Hmem.
    apply (Hnone "/work/.cursor/skills");
      [apply list_elem_of_further, list_elem_of_here | by_compute].
Defined.

Lemma summary_accounts_for_every_item_witness :
  ∃ summaries w',
    install_targets Sample.linux install symlink_method false []
      [(".claude", getTargetConfig ".claude"); (".cursor", getTargetConfig ".cursor")]
      [(skills, [Sample.foo; Sample.bar])] []
      (Sample.disk ["/src/skills/foo"; "/work/.claude/skills/foo"])
      = (Done summaries, w') ∧
    Install.target <$> summaries = [".claude"; ".cursor"] ∧
    Forall (λ s, installed s + skipped s + failed s = 2) summaries.
Proof.
  assert (install_targets Sample.linux install symlink_method false []
            [(".claude", getTargetConfig ".claude");
             (".cursor", getTargetConfig ".cursor")]
            [(skills, [Sample.foo; Sample.bar])] []
            (Sample.disk ["/src/skills/foo"; "/work/.claude/skills/foo"])
          = (Done [{| Install.target := ".claude"; targetName := "Claude Code";
                      installed := 1; skipped := 0; failed := 1 |};
                   {| Install.target := ".cursor"; targetName := "Cursor";
                      installed := 2; skipped := 0; failed := 0 |}],
             (install_targets Sample.linux install symlink_method false []
                [(".claude", getTargetConfig ".claude");
                 (".cursor", getTargetConfig ".cursor")]
                [(skills, [Sample.foo; Sample.bar])] []
                (Sample.disk ["/src/skills/foo"; "/work/.claude/skills/foo"])).2))
    as Hrun by (vm_compute; reflexivity).
  eexists _, _. split; [exact Hrun|].
  exact (proj2 (proj2 (summary_accounts_for_every_item Sample.linux install
                         symlink_method false [])) _ _ _ _ _ Hrun).
Defined.

Lemma install_skips_what_is_present_witness :
  ∃ s1 s2 w',
    installCommand Sample.linux install false symlink_method
      [".claude"; ".cursor"] [skills] [(skills, [Sample.foo])]
      (λ _, Answered ["foo"]) (Answered true)
      (Sample.disk ["/work/.claude/skills/foo"])
      = (Done (Completed [s1; s2]), w') ∧
    Install.target s1 = ".claude" ∧ skipped s1 = 1 ∧ installed s1 = 0 ∧ failed s1 = 0 ∧
    Install.target s2 = ".cursor" ∧ installed s2 = 1 ∧ skipped s2 = 0 ∧ failed s2 = 0.
Proof.
  apply (proj2 (install_skips_what_is_present Sample.linux) symlink_method
           ".claude" ".cursor" _ _ skills Sample.foo
           (Sample.disk ["/work/.claude/skills/foo"]) eq_refl eq_refl);
    [by_compute | by_compute | reflexivity | reflexivity].
Defined.

Lemma fetchRepo_branch_fallback_witness :
  ∃ w' calls,
    fetchRepo Sample.linux "owner/repo" (Sample.disk []) =
      (Thrown "Failed to fetch: Repository not found or not accessible", w') ∧
    trace w' = [] ++ calls ∧
    fetched calls = ["https://github.com/owner/repo/archive/main.tar.gz";
                     "https://github.com/owner/repo/archive/master.tar.gz"].
Proof.
  destruct (fetchRepo_branch_fallback Sample.linux "owner/repo"
              {| owner := "owner"; repo := "repo"; branch := "main";
                 subpath := None |} (Sample.disk []))
    as (out & w' & calls & Hrun & Htrace & Hfetched & Hout);
    [by_compute | reflexivity | reflexivity |].
  exists w', calls. rewrite Hrun, (Hout eq_refl). by split_and!.
Defined.


(** * Part IV: further properties of the same code *)

(** ** parseGitHubUrl: edges of the two patterns *)

Lemma all_app cls (a b : string) :
  all cls (a +:+ b) = all cls a && all cls b.
Proof. induction a as [|c a IH]; simpl; [done|]. by rewrite IH, andb_assoc. Qed.

Lemma not_slash_dot_free (s : string) :
  all (λ c, negb (Ascii.eqb c ".") && not_slash c) s = true →
  all not_slash s = true.
Proof.
  induction s as [|c s IH]; simpl; [done|].
  intros [[_ ->]%andb_prop ?]%andb_prop. simpl. auto.
Qed.

(** When no shorter run lets the rest of the pattern match either, the
    greedy run fails. *)
Lemma more_fails cls seg rest k :
  stops cls rest →
  (∀ pre suf, seg = pre +:+ suf → k (suf +:+ rest) = None) →
  more cls (seg +:+ rest) k = None.
Proof.
  intros Hstop. induction seg as [|c seg IH]; intros Hk.
  - simpl. destruct rest as [|d rest]; simpl in *; [done|]. by rewrite Hstop.
  - simpl. destruct (cls c); [|done].
    rewrite IH; [apply (Hk (String c "") seg eq_refl)|].
    intros pre suf ->. by apply (Hk (String c pre) suf).
Qed.

Lemma replace_git_suffix (base : string) :
  all (λ c, negb (Ascii.eqb c ".") && not_slash c) base = true →
  replace ".git" "" (base +:+ ".git") = base.
Proof.
  induction base as [|c base IH]; [done|].
  cbn [all]. intros [[Hc _]%andb_prop Hall]%andb_prop.
  change (String c base +:+ ".git") with (String c (base +:+ ".git")).
  cbn [replace strip_prefix].
  destruct (Ascii.eqb_spec "." c) as [<-|_]; [done|]. by rewrite IH.
Qed.

(** X5. A repository written [base.git], where [base] has no dot, parses
    with the suffix gone: owner and [base], branch [main], no subpath. *)
Theorem parse_url_dot_git (o base : string) :
  segment o → base ≠ "" →
  all (λ c, negb (Ascii.eqb c ".") && not_slash c) base = true →
  parseGitHubUrl ("https://github.com/" +:+ o +:+ "/" +:+ base +:+ ".git") =
    Done {| owner := o; repo := base; branch := "main"; subpath := None |}.
Proof.
  intros Ho Hbase Hfree.
  assert (segment (base +:+ ".git")) as Hr.
  { split; [by destruct base|].
    by rewrite all_app, (not_slash_dot_free base Hfree). }
  unfold parseGitHubUrl, patterns, first_match.
  replace (base +:+ ".git") with ((base +:+ ".git") +:+ "") at 1
    by apply append_nil_r.
  erewrite (exec_full_url o (base +:+ ".git") Ho Hr "" (λ caps, caps)); [|done..].
  unfold info_of_match. simplify_map_eq. by rewrite replace_git_suffix.
Qed.

(** X6. A slash right after [/tree/<branch>] undoes the branch: the match
    backtracks, the branch falls back to [main] and the whole
    [tree/<branch>/] becomes the subpath. *)
Theorem parse_url_tree_trailing_slash (o r b : string) :
  segment o → segment r → segment b → all dot b = true →
  parseGitHubUrl ("https://github.com/" +:+ o +:+ "/" +:+ r +:+ "/tree/" +:+ b
                  +:+ "/") =
    Done {| owner := o; repo := replace ".git" "" r; branch := "main";
            subpath := Some ("tree/" +:+ b +:+ "/") |}.
Proof.
  intros Ho Hr [Hb0 Hb] Hdot.
  unfold parseGitHubUrl, patterns, first_match.
  erewrite (exec_full_url o r Ho Hr ("/tree/" +:+ b +:+ "/")
              (λ caps, <[4 := "tree/" +:+ b +:+ "/"]> caps)); [| |done..].
  - unfold info_of_match. by simplify_map_eq.
  - intros caps _ _. cbn [run].
    change ("/tree/" +:+ b +:+ "/") with ("/tree/" +:+ (b +:+ "/")) at 1.
    rewrite strip_prefix_app.
    rewrite more_fails; [|done|].
    + change ("/tree/" +:+ b +:+ "/") with ("/" +:+ ("tree/" +:+ b +:+ "/")).
      rewrite strip_prefix_app.
      replace ("tree/" +:+ b +:+ "/") with (("tree/" +:+ b +:+ "/") +:+ "") at 1
        by apply append_nil_r.
      erewrite more_greedy; [done | done | | done |].
      * change ("tree/" +:+ b +:+ "/") with ("tree/" +:+ (b +:+ "/")).
        by rewrite !all_app, Hdot.
      * simpl. by rewrite consumed_all.
    + intros pre suf ->. rewrite all_app in Hb. apply andb_prop in Hb as [_ Hsuf].
      destruct suf as [|c suf]; [done|]. simpl in Hsuf.
      apply andb_prop in Hsuf as [Hc _]. unfold not_slash in Hc.
      change (String c suf +:+ "/") with (String c (suf +:+ "/")).
      cbn [strip_prefix at_end].
      destruct (Ascii.eqb_spec "/" c) as [<-|_]; done.
Qed.

(** ** linkOrCopy: force, frame and method *)

Lemma within_refl (p : string) : within p p = true.
Proof. unfold within. by rewrite String.eqb_refl. Qed.

Lemma removed_gone (p : string) (s : gset string) :
  p ∉ filter (λ q, within p q = false) s.
Proof. intros [Hw _]%elem_of_filter. by rewrite within_refl in Hw. Qed.

Section LinkMore.
Variable h : Host.t.
Variables src tgt : string.

(** X7. With [force], and the removal, the directory creation and the
    copy not failing, [linkOrCopy] succeeds whether or not the target was
    there, and has removed the old target exactly when there was one. The
    target is in place afterwards when it was copied, or when the source
    is there where the new link looks for it, outside the target itself. *)
Theorem linkOrCopy_force_replaces method w :
  fault h (Remove tgt) = None →
  fault h (EnsureDir (dirname h tgt)) = None →
  fault h (Copy src tgt) = None →
  ∃ r w' calls,
    linkOrCopy h src tgt method true w = (Done r, w') ∧
    success r = true ∧
    (method = copy_method ∨
     (link_dest h src tgt ∈ present w ∧ within tgt (link_dest h src tgt) = false) →
     tgt ∈ present w') ∧
    trace w' = trace w ++ calls ∧
    (Remove tgt ∈ calls ↔ tgt ∈ present w).
Proof.
  intros Hrm Hdir Hcopy. unfold linkOrCopy. unfold_io. simpl.
  destruct (bool_decide (tgt ∈ present w)) eqn:Hthere; simpl.
  - rewrite Hrm. simpl.
    rewrite (bool_decide_false _ (removed_gone tgt (present w))), Hdir.
    apply bool_decide_eq_true in Hthere.
    repeat (case_match; simplify_eq/=); rewrite ?Hcopy; eexists _, _, _;
      (split; [reflexivity|]); simpl;
      (split_and!; [done | | by rewrite <- ?(assoc_L (++)) |]).
    all: try (split; [done|]; intros _; set_solver).
    all: try (intros _; set_solver).
    all: intros [->|[Hsrc Hout]]; [done|].
    all: match goal with
         | Hd : bool_decide (link_dest _ _ _ ∈ _) = false |- _ =>
             apply bool_decide_eq_false in Hd; destruct Hd;
             apply elem_of_union_l, elem_of_filter; by split
         end.
  - rewrite Hthere, Hdir. apply bool_decide_eq_false in Hthere.
    repeat (case_match; simplify_eq/=); rewrite ?Hcopy; eexists _, _, _;
      (split; [reflexivity|]); simpl;
      (split_and!; [done | | by rewrite <- ?(assoc_L (++)) |]).
    all: try (split; [|done]; set_unfold; naive_solver).
    all: try (intros _; set_solver).
    all: intros [->|[Hsrc Hout]]; [done|].
    all: match goal with
         | Hd : bool_decide (link_dest _ _ _ ∈ _) = false |- _ =>
             apply bool_decide_eq_false in Hd; destruct Hd; set_solver
         end.
Qed.


(** X9. Without [force] nothing is ever removed: every path present
    before is present after, and no [remove] call is made. *)
Theorem linkOrCopy_without_force_keeps method w out w' :
  linkOrCopy h src tgt method false w = (out, w') →
  present w ⊆ present w' ∧
  ∃ calls, trace w' = trace w ++ calls ∧ ∀ p, Remove p ∉ calls.
Proof.
  unfold linkOrCopy. unfold_io. intros H.
  repeat (case_match; simplify_eq/=).
  all: split; [set_solver|].
  all: eexists; split; [by rewrite <- ?(assoc_L (++))|].
  all: intros p; set_unfold; naive_solver.
Qed.

(** Asking for [copy] never makes a symlink, on any platform. *)
Lemma linkOrCopy_copy_never_links force w out w' :
  linkOrCopy h src tgt copy_method force w = (out, w') →
  ∃ calls, trace w' = trace w ++ calls ∧
    (∀ a b, Symlink a b ∉ calls) ∧
    ∀ r, out = Done r → success r = true → Link.method r = copy_method.
Proof.
  unfold linkOrCopy. unfold_io. intros H.
  repeat (case_match; simplify_eq/=).
  all: eexists; split; [by rewrite <- ?(assoc_L (++))|].
  all: split; [intros a b; set_unfold; naive_solver|].
  all: intros r ? ?; by simplify_eq/=.
Qed.

End LinkMore.

(** ** installCommand: what the selection and the loop leave alone *)

Lemma probe_targets_disk h item_id dirs (row : gmap string bool) w out w' :
  probe_targets h item_id dirs row w = (out, w') →
  present w' = present w ∧ json w' = json w.
Proof.
  revert row w. induction dirs as [|d dirs IH]; intros row w; cbn [probe_targets].
  - unfold ret. by intros [= _ <-].
  - unfold bind, pathExists. intros Hrun. by apply IH in Hrun.
Qed.

Lemma probe_items_disk h items dirs (acc : gmap string (gmap string bool)) w out w' :
  probe_items h items dirs acc w = (out, w') →
  present w' = present w ∧ json w' = json w.
Proof.
  revert acc w. induction items as [|item items IH]; intros acc w; cbn [probe_items].
  - unfold ret. by intros [= _ <-].
  - unfold bind.
    destruct (probe_targets h (Prompts.id item) dirs ∅ w) as [[row|e|c] w1] eqn:Hrow;
      apply probe_targets_disk in Hrow as [Hp Hj].
    + intros [Hp' Hj']%IH. split; congruence.
    + by intros [= _ <-].
    + by intros [= _ <-].
Qed.

Lemma selectItems_disk h items mode dirs selectAll response w out w' :
  selectItemsWithExistenceCheck h items mode dirs selectAll response w = (out, w') →
  present w' = present w ∧ json w' = json w.
Proof.
  unfold selectItemsWithExistenceCheck, bind.
  destruct (probe_items h items dirs ∅ w) as [[matrix|e|c] w1] eqn:Hrun;
    apply probe_items_disk in Hrun as [Hp Hj].
  - destruct selectAll; [destruct (is_install mode)|destruct response];
      unfold ret, handleCancel, exit; simpl; intros [= _ <-]; done.
  - by intros [= _ <-].
  - by intros [= _ <-].
Qed.

(** The target directories are computed without touching the runtime:
    the list comes out, or the [TypeError] of [path.join]. *)
Lemma target_dirs_pure h targetConfigs type :
  (∃ dirs, ∀ w, target_dirs h targetConfigs type w = (Done dirs, w)) ∨
  (∃ e, ∀ w, target_dirs h targetConfigs type w = (Thrown e, w)).
Proof.
  induction targetConfigs as [|[key [config|name]] targetConfigs IH];
    cbn [target_dirs snd dir_at join_cwd].
  - left. by eexists.
  - destruct IH as [[dirs Hdirs]|[e He]]; [left|right]; eexists; intros w;
      rewrite bind_ret; unfold bind; by rewrite ?Hdirs, ?He.
  - right. by eexists.
Qed.

Lemma target_dirs_configs h targetConfigs type :
  Forall (λ tc, ∃ config, tc.2 = Config config) targetConfigs →
  ∃ dirs, ∀ w, target_dirs h targetConfigs type w = (Done dirs, w).
Proof.
  induction 1 as [|[key entry] targetConfigs [config Hc] _ [dirs Hdirs]];
    cbn [target_dirs snd].
  - by eexists.
  - simpl in Hc. subst entry. cbn [dir_at join_cwd]. eexists. intros w.
    rewrite bind_ret. unfold bind. by rewrite Hdirs.
Qed.

Lemma target_dirs_inherited h targetConfigs type :
  Exists (λ tc, ∃ name, tc.2 = Inherited name) targetConfigs →
  ∃ e, ∀ w, target_dirs h targetConfigs type w = (Thrown e, w).
Proof.
  induction 1 as [[key entry] targetConfigs [name Hn]
                 |[key [config|name]] targetConfigs _ [e He]];
    cbn [target_dirs snd dir_at join_cwd].
  - simpl in Hn. subst entry. by eexists.
  - eexists. intros w. rewrite bind_ret. unfold bind. by rewrite He.
  - by eexists.
Qed.

Lemma select_types_disk h mode all targetConfigs types available responses
    selected maps w out w' :
  select_types h mode all targetConfigs types available responses selected maps w
    = (out, w') →
  present w' = present w ∧ json w' = json w.
Proof.
  revert selected maps w.
  induction types as [|type types IH]; intros selected maps w; cbn [select_types].
  - unfold ret. by intros [= _ <-].
  - destruct (get_prop available type) as [[|item items]|]; [apply IH| |apply IH].
    unfold bind.
    destruct (target_dirs_pure h targetConfigs type) as [[dirs ->]|[e ->]];
      [|by intros [= _ <-]].
    destruct (selectItemsWithExistenceCheck _ _ _ _ _ _ _) as [[res|e|c] w1] eqn:Hsel;
      apply selectItems_disk in Hsel as [Hp Hj].
    + intros [Hp' Hj']%IH. split; congruence.
    + by intros [= _ <-].
    + by intros [= _ <-].
Qed.

Lemma select_types_no_throw h mode all targetConfigs types available responses
    selected maps w e w' :
  Forall (λ tc, ∃ config, tc.2 = Config config) targetConfigs →
  select_types h mode all targetConfigs types available responses selected maps w
    ≠ (Thrown e, w').
Proof.
  intros Hconfigs. revert selected maps w.
  induction types as [|type types IH]; intros selected maps w; cbn [select_types].
  - done.
  - destruct (get_prop available type) as [[|item items]|]; [apply IH| |apply IH].
    unfold bind.
    destruct (target_dirs_configs h targetConfigs type Hconfigs) as [dirs ->].
    destruct (selectItems_unfold h (item :: items) mode dirs
                all (responses type) w) as (matrix & w1 & _ & ->).
    destruct all; [apply IH|]. destruct (responses type); [done|apply IH].
Qed.

(** With a target that is no configuration, the first type that has
    items stops the selection: before anything is probed or asked. *)
Lemma select_types_inherited h mode all targetConfigs types available responses
    selected maps w :
  Exists (λ tc, ∃ name, tc.2 = Inherited name) targetConfigs →
  Exists (λ type, ∃ item items, get_prop available type = Some (item :: items))
    types →
  ∃ e, select_types h mode all targetConfigs types available responses
         selected maps w = (Thrown e, w).
Proof.
  intros Hin Hitems. revert selected maps.
  induction Hitems as [type types (item & items & Hsome)|type types _ IH];
    intros selected maps; cbn [select_types].
  - rewrite Hsome. unfold bind.
    destruct (target_dirs_inherited h targetConfigs type Hin) as [e ->].
    by eexists.
  - destruct (get_prop available type) as [[|item items]|]; [apply IH| |apply IH].
    unfold bind.
    destruct (target_dirs_inherited h targetConfigs type Hin) as [e ->].
    by eexists.
Qed.

Lemma select_types_exit h mode all targetConfigs types available responses
    selected maps w c w' :
  select_types h mode all targetConfigs types available responses selected maps w
    = (Exited c, w') → c = 0%Z.
Proof.
  revert selected maps w.
  induction types as [|type types IH]; intros selected maps w; cbn [select_types].
  - done.
  - destruct (get_prop available type) as [[|item items]|]; [apply IH| |apply IH].
    unfold bind.
    destruct (target_dirs_pure h targetConfigs type) as [[dirs ->]|[e ->]]; [|done].
    destruct (selectItems_unfold h (item :: items) mode dirs
                all (responses type) w) as (matrix & w1 & _ & ->).
    destruct all; [apply IH|]. destruct (responses type); [by intros [= <- _]|apply IH].
Qed.

Lemma linkOrCopy_grows h src tgt method w out w' :
  linkOrCopy h src tgt method false w = (out, w') →
  present w ⊆ present w' ∧ json w' = json w.
Proof.
  unfold linkOrCopy. unfold_io. intros H.
  repeat (case_match; simplify_eq/=); (split; [set_solver|done]).
Qed.

Lemma linkOrCopy_json h src tgt method force w out w' :
  linkOrCopy h src tgt method force w = (out, w') → json w' = json w.
Proof.
  unfold linkOrCopy. unfold_io. intros H.
  by repeat (case_match; simplify_eq/=).
Qed.

Section LoopMore.
Variable h : Host.t.
Variable mode : Mode.
Variable method : LinkMethod.
Variable existenceMaps : list (ArtifactType * gmap string (gmap string bool)).

Lemma install_item_grows targetConfig type item summary w out w' :
  install_item h mode method false existenceMaps targetConfig type item summary w
    = (out, w') →
  present w ⊆ present w' ∧ json w' = json w.
Proof.
  unfold install_item. destruct targetConfig as [config|name];
    cbn [dir_at join_cwd]; [rewrite bind_ret|by intros [= _ <-]].
  destruct (is_install mode && _).
  - unfold ret. by intros [= _ <-].
  - unfold try_catch, bind.
    destruct (linkOrCopy _ _ _ _ _ _) as [[r|e|c] w1] eqn:Hl;
      apply linkOrCopy_grows in Hl as [Hp Hj].
    + destruct (success r); unfold ret, throw; by intros [= _ <-].
    + unfold ret. by intros [= _ <-].
    + by intros [= _ <-].
Qed.

Lemma install_items_grows targetConfig type items summary w out w' :
  install_items h mode method false existenceMaps targetConfig type items summary w
    = (out, w') →
  present w ⊆ present w' ∧ json w' = json w.
Proof.
  revert summary w. induction items as [|item items IH]; intros summary w;
    cbn [install_items].
  - unfold ret. by intros [= _ <-].
  - unfold bind.
    destruct (install_item _ _ _ _ _ _ _ _ _ _) as [[s|e|c] w1] eqn:Hi;
      apply install_item_grows in Hi as [Hp Hj].
    + intros [Hp' Hj']%IH. split; [set_solver|congruence].
    + by intros [= _ <-].
    + by intros [= _ <-].
Qed.

Lemma install_entries_grows targetConfig entries summary w out w' :
  install_entries h mode method false existenceMaps targetConfig entries summary w
    = (out, w') →
  present w ⊆ present w' ∧ json w' = json w.
Proof.
  revert summary w. induction entries as [|[type items] entries IH];
    intros summary w; cbn [install_entries].
  - unfold ret. by intros [= _ <-].
  - unfold bind.
    destruct (install_items _ _ _ _ _ _ _ _ _ _) as [[s|e|c] w1] eqn:Hi;
      apply install_items_grows in Hi as [Hp Hj].
    + intros [Hp' Hj']%IH. split; [set_solver|congruence].
    + by intros [= _ <-].
    + by intros [= _ <-].
Qed.

Lemma install_targets_grows targetConfigs selected summaries w out w' :
  install_targets h mode method false existenceMaps targetConfigs selected
    summaries w = (out, w') →
  present w ⊆ present w' ∧ json w' = json w.
Proof.
  revert summaries w.
  induction targetConfigs as [|[key tc] targetConfigs IH]; intros summaries w;
    cbn [install_targets].
  - unfold ret. by intros [= _ <-].
  - unfold bind.
    destruct (install_entries _ _ _ _ _ _ _ _ _) as [[s|e|c] w1] eqn:Hi;
      apply install_entries_grows in Hi as [Hp Hj].
    + intros [Hp' Hj']%IH. split; [set_solver|congruence].
    + by intros [= _ <-].
    + by intros [= _ <-].
Qed.

End LoopMore.

(** A key that [Object.prototype] does not define resolves to a
    configuration; one that it defines resolves to what is found there. *)
Lemma getTargetConfig_config key :
  inherited key = false → ∃ config, getTargetConfig key = Config config.
Proof.
  unfold inherited, getTargetConfig, TARGETS. intros Hkey.
  apply orb_false_elim in Hkey as [Hproto Hfun]. rewrite Hproto, Hfun.
  destruct (String.eqb_spec key "constructor") as [->|_];
    [vm_compute in Hfun; discriminate Hfun|].
  destruct (String.eqb key ".claude"); [by eexists|].
  destruct (String.eqb key ".cursor"); [by eexists|].
  destruct (String.eqb key ".agents"); by eexists.
Qed.

Lemma getTargetConfig_inherited key :
  inherited key = true → ∃ name, getTargetConfig key = Inherited name.
Proof.
  unfold inherited, getTargetConfig, TARGETS. intros Hkey.
  destruct (String.eqb_spec key ".claude") as [->|_]; [done|].
  destruct (String.eqb_spec key ".cursor") as [->|_]; [done|].
  destruct (String.eqb_spec key ".agents") as [->|_]; [done|].
  destruct (String.eqb key "__proto__"); [by eexists|].
  destruct (String.eqb key "constructor"); [by eexists|].
  simpl in Hkey. rewrite Hkey. by eexists.
Qed.

Lemma target_dirs_done h targetConfigs type dirs w w' :
  target_dirs h targetConfigs type w = (Done dirs, w') →
  Forall (λ tc, ∃ config, tc.2 = Config config) targetConfigs.
Proof.
  revert dirs. induction targetConfigs as [|[key [config|name]] targetConfigs IH];
    intros dirs; cbn [target_dirs snd dir_at join_cwd]; [done| |done].
  rewrite bind_ret. unfold bind.
  destruct (target_dirs h targetConfigs type w) as [[ds|e|c] w1] eqn:Hd; [|done..].
  unfold ret. intros [= _ <-]. constructor; [by eexists|]. by eapply IH.
Qed.

(** A selection that comes out changed has computed the target
    directories, so every target is a configuration. *)
Lemma select_types_configs h mode all targetConfigs types available responses
    selected maps w chosen w' :
  select_types h mode all targetConfigs types available responses selected maps w
    = (Done chosen, w') →
  chosen.1 = selected ∨
  Forall (λ tc, ∃ config, tc.2 = Config config) targetConfigs.
Proof.
  revert selected maps w.
  induction types as [|type types IH]; intros selected maps w; cbn [select_types].
  - unfold ret. intros [= <- _]. by left.
  - destruct (get_prop available type) as [[|item items]|]; [apply IH| |apply IH].
    unfold bind.
    destruct (target_dirs h targetConfigs type w) as [[dirs|e|c] w1] eqn:Hd; [|done..].
    intros _. right. by eapply target_dirs_done.
Qed.

Lemma entries_configs (targetConfigs : list (string * Entry)) :
  Forall (λ tc, ∃ config, tc.2 = Config config) targetConfigs →
  ∃ configs, targetConfigs = as_entries configs.
Proof.
  induction 1 as [|[key entry] targetConfigs [config Hc] _ [configs ->]].
  - by exists [].
  - simpl in Hc. subst entry. by exists ((key, config) :: configs).
Qed.

Section CommandFacts.
Variable h : Host.t.
Variable all_flag : bool.
Variable method : LinkMethod.
Variable targetKeys : list string.
Variable types : list ArtifactType.
Variable available : list (ArtifactType * list Item).
Variable responses : ArtifactType → answer (list string).
Variable proceed : answer bool.

(** Once something is selected, the loop over the targets runs to its
    end. *)
Lemma install_targets_after_selection mode force w chosen w1 :
  select_types h mode all_flag ((λ key, (key, getTargetConfig key)) <$> targetKeys)
    types available responses [] [] w = (Done chosen, w1) →
  (length (flat chosen.1) =? 0) = false →
  ∃ news w2,
    Install.install_targets h mode method force chosen.2
      ((λ key, (key, getTargetConfig key)) <$> targetKeys) chosen.1 [] w1
      = (Done news, w2).
Proof.
  intros Hsel Hlen.
  apply select_types_configs in Hsel as [Hnil|Hconfigs];
    [by rewrite Hnil in Hlen|].
  destruct (entries_configs _ Hconfigs) as [configs ->].
  destruct (install_targets_total h mode method force chosen.2 configs chosen.1 [] w1)
    as (news & w2 & Ht & _).
  by exists news, w2.
Qed.


(** X11. From the selection on, the command ends with a result, with
    exit code 0 because the user cancelled, or with exit code 1; no
    exception escapes. Exit code 1 needs a target key that names a member
    of [Object.prototype]: when no key does, it is never produced,
    whatever calls fail. When some key does and some requested type has
    items, the command leaves with exit code 1 before it probes, asks or
    writes anything. *)
Theorem installCommand_exit_codes mode w :
  (∀ out w',
     installCommand h mode all_flag method targetKeys types available responses
       proceed w = (out, w') →
     (∃ finished, out = Done finished) ∨ out = Exited 0 ∨ out = Exited 1) ∧
  (Forall (λ key, inherited key = false) targetKeys →
   ∀ out w',
     installCommand h mode all_flag method targetKeys types available responses
       proceed w = (out, w') →
     (∃ finished, out = Done finished) ∨ out = Exited 0) ∧
  (Exists (λ key, inherited key = true) targetKeys →
   Exists (λ type, ∃ item items, get_prop available type = Some (item :: items))
     types →
   installCommand h mode all_flag method targetKeys types available responses
     proceed w = (Exited 1, w)).
Proof.
  assert (∀ out w',
     installCommand h mode all_flag method targetKeys types available responses
       proceed w = (out, w') →
     ((∃ finished, out = Done finished) ∨ out = Exited 0) ∨
     (out = Exited 1 ∧
      ¬ Forall (λ tc, ∃ config, tc.2 = Config config)
          ((λ key, (key, getTargetConfig key)) <$> targetKeys))) as Hcases.
  { unfold installCommand, try_catch, bind. intros out w' Hrun.
    destruct (select_types _ _ _ _ _ _ _ _ _ _) as [[chosen|e|c] w1] eqn:Hsel.
    - left.
      destruct (length (flat chosen.1) =? 0) eqn:Hlen;
        [unfold ret in Hrun; simplify_eq; eauto|].
      destruct proceed as [|[|]]; unfold handleCancel, ret, exit in Hrun;
        simpl in Hrun; [simplify_eq; eauto| |simplify_eq; eauto].
      destruct (install_targets_after_selection mode (negb (is_install mode))
                  w chosen w1 Hsel Hlen) as (news & w2 & Ht).
      rewrite Ht in Hrun. unfold ret in Hrun. simplify_eq. eauto.
    - right. unfold exit in Hrun. simplify_eq. split; [done|].
      intros Hconfigs. by eapply select_types_no_throw.
    - left. apply select_types_exit in Hsel as ->. simplify_eq. eauto. }
  split_and!.
  - intros out w' Hrun. destruct (Hcases out w' Hrun) as [[?|?]|[? _]]; auto.
  - intros Hkeys out w' Hrun. destruct (Hcases out w' Hrun) as [?|[_ Hnot]]; [done|].
    destruct Hnot. apply Forall_fmap. eapply Forall_impl; [exact Hkeys|].
    intros key Hkey. by apply getTargetConfig_config.
  - intros Hkey Htype. unfold installCommand, try_catch, bind.
    destruct (select_types_inherited h mode all_flag
                ((λ key, (key, getTargetConfig key)) <$> targetKeys)
                types available responses [] [] w) as [e ->]; [|done..].
    apply Exists_fmap. eapply Exists_impl; [exact Hkey|].
    intros key Hk. by apply getTargetConfig_inherited.
Qed.

(** X12. In install mode nothing that exists is ever removed or
    overwritten: whatever is selected and however the run ends, every path
    present before is present after and no document changes. *)
Theorem installCommand_install_keeps w out w' :
  installCommand h install all_flag method targetKeys types available responses
    proceed w = (out, w') →
  present w ⊆ present w' ∧ json w' = json w.
Proof.
  unfold installCommand, try_catch, bind. intros Hrun.
  destruct (select_types _ _ _ _ _ _ _ _ _ _) as [[chosen|e|c] w1] eqn:Hsel.
  - apply select_types_disk in Hsel as [Hp Hj]. rewrite <- Hp, <- Hj.
    destruct (length (flat chosen.1) =? 0); [unfold ret in Hrun; by simplify_eq|].
    destruct proceed as [|[|]]; unfold handleCancel, ret, exit in Hrun; simpl in Hrun;
      [by simplify_eq| |by simplify_eq].
    destruct (install_targets _ _ _ _ _ _ _ _ _) as [[s|e|c] w2] eqn:Ht;
      apply install_targets_grows in Ht; unfold exit in Hrun; by simplify_eq.
  - apply select_types_disk in Hsel as [Hp Hj]. unfold exit in Hrun. simplify_eq.
    by rewrite Hp, Hj.
  - apply select_types_disk in Hsel as [Hp Hj]. simplify_eq.
    by rewrite Hp, Hj.
Qed.

End CommandFacts.

(** ** The loop in update mode, and items that share an id *)

Section UpdateFacts.
Variable h : Host.t.
Variable method : LinkMethod.
Variable force : bool.
Variable existenceMaps : list (ArtifactType * gmap string (gmap string bool)).

Lemma install_item_update_skipped targetConfig type item summary w summary' w' :
  install_item h update method force existenceMaps targetConfig type item
    summary w = (Done summary', w') →
  skipped summary' = skipped summary.
Proof.
  unfold install_item. destruct targetConfig as [config|name];
    cbn [dir_at join_cwd]; [rewrite bind_ret|done].
  cbn [is_install andb]. unfold try_catch, bind.
  destruct (linkOrCopy _ _ _ _ _ _) as [[r|e|c] w1].
  - destruct (success r); unfold ret, throw; by intros [= <- _].
  - unfold ret. by intros [= <- _].
  - done.
Qed.

Lemma install_items_update_skipped targetConfig type items summary w summary' w' :
  install_items h update method force existenceMaps targetConfig type items
    summary w = (Done summary', w') →
  skipped summary' = skipped summary.
Proof.
  revert summary w. induction items as [|item items IH]; intros summary w;
    cbn [install_items].
  - unfold ret. by intros [= <- _].
  - unfold bind.
    destruct (install_item _ _ _ _ _ _ _ _ _ _) as [[s|e|c] w1] eqn:Hi; [|done..].
    apply install_item_update_skipped in Hi. intros ?%IH. congruence.
Qed.

Lemma install_entries_update_skipped targetConfig entries summary w summary' w' :
  install_entries h update method force existenceMaps targetConfig entries
    summary w = (Done summary', w') →
  skipped summary' = skipped summary.
Proof.
  revert summary w. induction entries as [|[type items] entries IH];
    intros summary w; cbn [install_entries].
  - unfold ret. by intros [= <- _].
  - unfold bind.
    destruct (install_items _ _ _ _ _ _ _ _ _ _) as [[s|e|c] w1] eqn:Hi; [|done..].
    apply install_items_update_skipped in Hi. intros ?%IH. congruence.
Qed.

Lemma install_targets_update_skipped targetConfigs selected summaries w out w' :
  install_targets h update method force existenceMaps targetConfigs selected
    summaries w = (Done out, w') →
  Forall (λ s, skipped s = 0) summaries →
  Forall (λ s, skipped s = 0) out.
Proof.
  revert summaries w.
  induction targetConfigs as [|[key tc] targetConfigs IH]; intros summaries w;
    cbn [install_targets].
  - unfold ret. by intros [= <- _].
  - unfold bind.
    destruct (install_entries _ _ _ _ _ _ _ _ _) as [[s|e|c] w1] eqn:Hi; [|done..].
    apply install_entries_update_skipped in Hi. intros Hrun Hall.
    apply (IH _ _ Hrun). apply Forall_app. split; [done|].
    by apply Forall_singleton.
Qed.

End UpdateFacts.

(** X13. In update mode nothing is ever skipped: every summary of a
    finished update has skipped = 0, whatever the existence matrix says. *)
Theorem installCommand_update_never_skips h all_flag method targetKeys types
    available responses proceed w summaries w' :
  installCommand h update all_flag method targetKeys types available responses
    proceed w = (Done (Completed summaries), w') →
  Forall (λ s, skipped s = 0) summaries.
Proof.
  unfold installCommand, try_catch, bind. intros Hrun.
  destruct (select_types _ _ _ _ _ _ _ _ _ _) as [[chosen|e|c] w1]; [|done..].
  destruct (length (flat chosen.1) =? 0); [done|].
  destruct proceed as [|[|]]; [done| |done].
  unfold handleCancel, ret in Hrun. simpl in Hrun.
  destruct (install_targets _ _ _ _ _ _ _ _ _) as [[s|e|c] w2] eqn:Ht; [|done..].
  simplify_eq. by eapply install_targets_update_skipped.
Qed.

Section SameId.
Variable h : Host.t.
Variable method : LinkMethod.
Variable existenceMaps : list (ArtifactType * gmap string (gmap string bool)).
Variable targetConfig : TargetConfig.
Variable type : ArtifactType.

Lemma install_item_exists mode item summary w :
  recorded existenceMaps type (Prompts.id item)
    (join h [cwd h; dir_of targetConfig type]) = false →
  join h [join h [cwd h; dir_of targetConfig type]; Prompts.id item] ∈ present w →
  install_item h mode method false existenceMaps targetConfig type item summary w
    = (Done (count_failed summary),
       record (PathExists (join h [join h [cwd h; dir_of targetConfig type];
                                   Prompts.id item])) w).
Proof.
  intros Hrow Hin. unfold install_item. cbn [dir_at join_cwd].
  rewrite bind_ret. unfold recorded in Hrow.
  rewrite Hrow, andb_false_r.
  unfold try_catch, bind. by rewrite linkOrCopy_present.
Qed.

(** X14. Two selected items of one type that share an id compete for one
    target path: on a target that holds neither, with the directory of the
    first item there where a link looks for it (or with the method
    [copy]), and with the directory creation and the copy not failing, the
    first is installed and the second is counted as failed, because the
    target now exists. *)
Theorem same_id_second_fails item1 item2 summary w :
  Prompts.id item2 = Prompts.id item1 →
  recorded existenceMaps type (Prompts.id item1)
    (join h [cwd h; dir_of targetConfig type]) = false →
  join h [join h [cwd h; dir_of targetConfig type]; Prompts.id item1] ∉ present w →
  method = copy_method ∨
    link_dest h (dirname h (Prompts.path item1))
      (join h [join h [cwd h; dir_of targetConfig type]; Prompts.id item1])
      ∈ present w →
  fault h (EnsureDir (dirname h
    (join h [join h [cwd h; dir_of targetConfig type]; Prompts.id item1]))) = None →
  fault h (Copy (dirname h (Prompts.path item1))
    (join h [join h [cwd h; dir_of targetConfig type]; Prompts.id item1])) = None →
  ∃ w',
    install_items h install method false existenceMaps targetConfig type
      [item1; item2] summary w
      = (Done (count_failed (count_installed summary)), w').
Proof.
  intros Hid Hrow Hout Hlive Hdir Hcopy. cbn [install_items]. unfold bind.
  assert (∃ w1, install_item h install method false existenceMaps targetConfig
                  type item1 summary w = (Done (count_installed summary), w1) ∧
                join h [join h [cwd h; dir_of targetConfig type]; Prompts.id item1]
                  ∈ present w1) as (w1 & -> & Hin).
  { unfold install_item. cbn [dir_at join_cwd]. rewrite bind_ret.
    unfold recorded in Hrow.
    rewrite Hrow, andb_false_r. unfold try_catch, bind.
    destruct (linkOrCopy_fresh h (dirname h (Prompts.path item1)) _ method w
                Hout Hdir Hcopy) as (r & w1 & Hrun & Hok).
    rewrite Hrun, Hok. exists w1. split; [done|].
    by eapply linkOrCopy_places. }
  rewrite install_item_exists; [by eexists|by rewrite Hid..].
Qed.

End SameId.

(** X15. In update mode an item is put in place again whatever was there:
    with the removal, the directory creation and the copy not failing, the
    pair counts as installed. The target is present afterwards when it
    was copied, or when the directory of the item is there where the new
    link looks for it, outside the target itself. *)
Theorem update_reinstalls h method existenceMaps (targetConfig : TargetConfig)
    type item summary w :
  let src := dirname h (Prompts.path item) in
  let tgt := join h [join h [cwd h; dir_of targetConfig type]; Prompts.id item] in
  fault h (Remove tgt) = None →
  fault h (EnsureDir (dirname h tgt)) = None →
  fault h (Copy src tgt) = None →
  ∃ w',
    install_item h update method true existenceMaps targetConfig type item
      summary w = (Done (count_installed summary), w') ∧
    (method = copy_method ∨
     (link_dest h src tgt ∈ present w ∧ within tgt (link_dest h src tgt) = false) →
     tgt ∈ present w').
Proof.
  intros src tgt Hrm Hdir Hcopy. unfold install_item. cbn [dir_at join_cwd].
  rewrite bind_ret. cbn [is_install andb]. fold src tgt.
  unfold try_catch, bind, linkOrCopy. unfold_io. simpl.
  destruct (bool_decide (tgt ∈ present w)) eqn:Hthere; simpl.
  - rewrite Hrm. simpl. rewrite (bool_decide_false _ (removed_gone _ (present w))), Hdir.
    repeat (case_match; simplify_eq/=); rewrite ?Hcopy; simpl; eexists;
      (split; [reflexivity|]); simpl.
    all: try (intros _; set_solver).
    all: intros [->|[Hsrc Hout]]; [done|].
    all: match goal with
         | Hd : bool_decide (link_dest _ _ _ ∈ _) = false |- _ =>
             apply bool_decide_eq_false in Hd; destruct Hd;
             apply elem_of_union_l, elem_of_filter; by split
         end.
  - rewrite Hthere, Hdir.
    repeat (case_match; simplify_eq/=); rewrite ?Hcopy; simpl; eexists;
      (split; [reflexivity|]); simpl.
    all: try (intros _; set_solver).
    all: intros [->|[Hsrc Hout]]; [done|].
    all: match goal with
         | Hd : bool_decide (link_dest _ _ _ ∈ _) = false |- _ =>
             apply bool_decide_eq_false in Hd; destruct Hd; set_solver
         end.
Qed.

(** ** fetchRepo: local paths, bad references, the fallback that works *)

Section FetchMore.
Variable h : Host.t.

(** X16. A reference that belongs to neither grammar and names no local
    path is refused before anything is created or downloaded: the only
    call made is the existence probe. *)
Theorem fetchRepo_invalid_reference input w :
  input ∉ present w →
  ¬ lang full_url_pattern input →
  ¬ lang shorthand_pattern input →
  fetchRepo h input w =
    (Thrown ("Invalid GitHub URL: " +:+ input), record (PathExists input) w).
Proof.
  intros Hlocal Hfull%exec_None Hshort%exec_None.
  unfold fetchRepo, bind, pathExists. rewrite bool_decide_false by done.
  unfold parseGitHubUrl, patterns, first_match. by rewrite Hfull, Hshort.
Qed.

(** X17. The fallback that works: when [main] answers with a non-success
    status and [master] with success, and writing, unpacking and removing
    the archive do not fail, [fetchRepo] returns the temporary directory;
    exactly the two downloads were made, the archive file is gone and the
    members of the archive are in place. *)
Theorem fetchRepo_master_fallback input info w :
  let tempDir := join h [tmpdir h; "agent-share";
                   owner info +:+ "-" +:+ repo info +:+ "-" +:+ pretty (now h)] in
  let tarPath := join h [tempDir; "repo.tar.gz"] in
  let main := tarUrl (owner info) (repo info) "main" in
  let master := tarUrl (owner info) (repo info) "master" in
  input ∉ present w →
  parseGitHubUrl input = Done info →
  branch info = "main" →
  fault h (EnsureDir tempDir) = None →
  fault h (Fetch main) = None → ok (http h main) = false →
  fault h (Fetch master) = None → ok (http h master) = true →
  fault h (WriteFile tarPath) = None →
  fault h (Unpack tempDir tarPath) = None →
  fault h (Remove tarPath) = None →
  ∃ w' calls,
    fetchRepo h input w = (Done tempDir, w') ∧
    trace w' = trace w ++ calls ∧
    fetched calls = [main; master] ∧
    (tarPath ∉ present w') ∧
    ∀ m, m ∈ untar h (body (http h master)) →
         within tarPath (join h [tempDir; m]) = false →
         join h [tempDir; m] ∈ present w'.
Proof.
  intros tempDir tarPath main master Hlocal Hparse Hmain Hdir Hf1 Hok1 Hf2 Hok2
    Hwrite Hunpack Hremove.
  subst tempDir tarPath main master.
  unfold fetchRepo. unfold_io. rewrite bool_decide_false by done.
  rewrite Hparse. cbv beta iota. rewrite Hdir, Hmain.
  cbn [String.eqb Ascii.eqb Bool.eqb try_branches]. unfold_io.
  repeat (case_match; simplify_eq/=); try congruence.
  eexists _, _. split; [reflexivity|]. simpl.
  split; [by rewrite <- ?(assoc_L (++))|]. split; [done|]. split.
  - apply removed_gone.
  - intros m Hm Hw. apply elem_of_filter. split; [done|].
    apply elem_of_union_r, elem_of_list_to_set, list_elem_of_fmap.
    by exists m.
Qed.

(** X18. The subpath of a reference plays no part in fetching: two
    references that agree on owner, repository and branch, neither of them
    a local path, end the same way and leave the same disk. *)
Theorem fetchRepo_ignores_subpath input1 input2 info1 info2 w :
  input1 ∉ present w → input2 ∉ present w →
  parseGitHubUrl input1 = Done info1 →
  parseGitHubUrl input2 = Done info2 →
  owner info1 = owner info2 → repo info1 = repo info2 →
  branch info1 = branch info2 →
  (fetchRepo h input1 w).1 = (fetchRepo h input2 w).1 ∧
  present (fetchRepo h input1 w).2 = present (fetchRepo h input2 w).2.
Proof.
  intros Hl1 Hl2 Hp1 Hp2 Ho Hr Hb.
  unfold fetchRepo. unfold_io. rewrite !bool_decide_false by done.
  rewrite Hp1, Hp2. cbv beta iota. rewrite Ho, Hr, Hb.
  destruct (fault h (EnsureDir _)); [done|].
  destruct (branch info2 =? "main")%string; cbn [try_branches]; unfold_io;
    repeat (case_match; simplify_eq/=); done.
Qed.

End FetchMore.

(** ** getConfig and setConfig: unreadable files, repeated updates *)

Section ConfigMore.
Variable h : Host.t.

Lemma getConfig_disk w out w' :
  getConfig h w = (out, w') → present w' = present w ∧ json w' = json w.
Proof.
  unfold getConfig. unfold_io. intros H.
  by repeat (case_match; simplify_eq/=).
Qed.

Lemma getConfig_total w : ∃ doc w', getConfig h w = (Done doc, w').
Proof.
  unfold getConfig. unfold_io. simpl.
  repeat (case_match; simplify_eq/=); by eexists _, _.
Qed.

(** X19. [getConfig] never fails and never writes. It yields the stored
    document when the file is there, the read is not refused and the file
    holds JSON; in every other case it yields the empty configuration. *)
Theorem getConfig_never_fails w :
  ∃ doc w',
    getConfig h w = (Done doc, w') ∧
    present w' = present w ∧ json w' = json w ∧
    (∀ stored,
       CONFIG_PATH h ∈ present w →
       fault h (ReadJson (CONFIG_PATH h)) = None →
       json w !! CONFIG_PATH h = Some stored →
       doc = stored) ∧
    (CONFIG_PATH h ∉ present w ∨
     is_Some (fault h (ReadJson (CONFIG_PATH h))) ∨
     json w !! CONFIG_PATH h = None →
     doc = ∅).
Proof.
  unfold getConfig. unfold_io. simpl.
  destruct (bool_decide (CONFIG_PATH h ∈ present w)) eqn:Hthere; simpl.
  - rewrite Hthere. apply bool_decide_eq_true in Hthere.
    destruct (fault h (ReadJson (CONFIG_PATH h))) as [e|] eqn:Hfault.
    + eexists _, _. split_and!; [reflexivity|done..].
    + destruct (json w !! CONFIG_PATH h) as [stored|] eqn:Hdoc;
        eexists _, _; (split_and!; [reflexivity|done..| |]).
      * intros stored' _ _ [= <-]. done.
      * intros [?|[[? ?]|?]]; done.
      * done.
      * done.
  - apply bool_decide_eq_false in Hthere.
    eexists _, _. split_and!; [reflexivity|done..].
Qed.

Lemma setConfig_runs (updates : jobject) w :
  fault h (EnsureDir (dirname h (CONFIG_PATH h))) = None →
  (∀ doc, fault h (WriteJson (CONFIG_PATH h) doc) = None) →
  ∃ before w0 w',
    getConfig h w = (Done before, w0) ∧
    setConfig h updates w = (Done tt, w') ∧
    json w' = <[CONFIG_PATH h := updates ∪ before]> (json w) ∧
    present w' =
      present w
      ∪ list_to_set (ancestors h (String.length (dirname h (CONFIG_PATH h)))
                       (dirname h (CONFIG_PATH h)))
      ∪ {[CONFIG_PATH h]}.
Proof.
  intros Hdir Hwrite.
  destruct (getConfig_total w) as (before & w0 & Hget).
  destruct (getConfig_disk _ _ _ Hget) as [Hp Hj].
  exists before, w0. unfold setConfig, bind. rewrite Hget.
  unfold ensureDir, writeJson, perform. rewrite Hdir, Hwrite.
  eexists. split_and!; [done|reflexivity| |]; simpl; by rewrite ?Hp, ?Hj.
Qed.

(** X20. When the existing file cannot be read as JSON (or does not
    exist), [setConfig] writes the update alone: whatever the file held is
    replaced. *)
Theorem setConfig_replaces_unreadable (updates : jobject) w :
  fault h (EnsureDir (dirname h (CONFIG_PATH h))) = None →
  (∀ doc, fault h (WriteJson (CONFIG_PATH h) doc) = None) →
  (CONFIG_PATH h ∉ present w ∨ json w !! CONFIG_PATH h = None ∨
   is_Some (fault h (ReadJson (CONFIG_PATH h)))) →
  ∃ w',
    setConfig h updates w = (Done tt, w') ∧
    json w' !! CONFIG_PATH h = Some updates.
Proof.
  intros Hdir Hwrite Hbad.
  destruct (setConfig_runs updates w Hdir Hwrite)
    as (before & w0 & w' & Hget & Hset & Hj & _).
  exists w'. split; [done|]. rewrite Hj, lookup_insert_eq.
  assert (before = ∅) as ->; [|by rewrite (right_id_L ∅ (∪))].
  revert Hget. unfold getConfig. unfold_io. simpl.
  destruct (bool_decide (CONFIG_PATH h ∈ present w)) eqn:Hthere; simpl;
    [|by intros [= <- _]].
  rewrite Hthere. apply bool_decide_eq_true in Hthere.
  destruct Hbad as [Hout | [Hnone | [e He]]]; [done| |].
  - rewrite Hnone. destruct (fault h (ReadJson _)); by intros [= <- _].
  - rewrite He. by intros [= <- _].
Qed.

(** X21. Updates compose: with the file readable and the writes not
    failing, [setConfig u1] followed by [setConfig u2] stores the same
    document as one [setConfig] with [u2] laid over [u1]; in particular
    repeating an update changes nothing. *)
Theorem setConfig_composes (u1 u2 : jobject) w :
  fault h (ReadJson (CONFIG_PATH h)) = None →
  fault h (EnsureDir (dirname h (CONFIG_PATH h))) = None →
  (∀ doc, fault h (WriteJson (CONFIG_PATH h) doc) = None) →
  ∃ w1 w2 w12,
    setConfig h u1 w = (Done tt, w1) ∧
    setConfig h u2 w1 = (Done tt, w2) ∧
    setConfig h (u2 ∪ u1) w = (Done tt, w12) ∧
    json w2 = json w12 ∧ present w2 = present w12.
Proof.
  intros Hread Hdir Hwrite.
  destruct (setConfig_runs u1 w Hdir Hwrite) as (b & w0 & w1 & Hget & Hs1 & Hj1 & Hp1).
  destruct (setConfig_runs u2 w1 Hdir Hwrite) as (b1 & w0' & w2 & Hget1 & Hs2 & Hj2 & Hp2).
  destruct (setConfig_runs (u2 ∪ u1) w Hdir Hwrite)
    as (b' & w0'' & w12 & Hget' & Hs12 & Hj12 & Hp12).
  exists w1, w2, w12. split_and!; [done..| |].
  - rewrite Hget in Hget'. simplify_eq.
    rewrite (getConfig_reads h w1 Hread) in Hget1.
    rewrite Hp1, Hj1, lookup_insert_eq in Hget1.
    rewrite bool_decide_true in Hget1 by set_solver. simpl in Hget1. simplify_eq.
    rewrite Hj2, Hj12, Hj1, insert_insert_eq. by rewrite (assoc_L (∪)).
  - rewrite Hp2, Hp12, Hp1. set_solver.
Qed.

(** ** configCommand *)

(** X22. Whenever [configCommand] changes anything on disk, [--show] was
    not set, a target or a method was given, and the method, if given, is
    [symlink] or [copy]: [--show] wins over the other options, and an
    invalid method ends the process before a target given with it is
    saved. *)
Theorem configCommand_writes_only_valid (options : ConfigCommand.ConfigOptions)
    w out w' :
  ConfigCommand.configCommand h options w = (out, w') →
  (json w' ≠ json w ∨ present w' ≠ present w) →
  ConfigCommand.show options = false ∧
  (is_Some (ConfigCommand.given (ConfigCommand.target options)) ∨
   is_Some (ConfigCommand.given (ConfigCommand.method options))) ∧
  ∀ m, ConfigCommand.given (ConfigCommand.method options) = Some m →
       m = "symlink" ∨ m = "copy".
Proof.
  unfold ConfigCommand.configCommand, ConfigCommand.showConfig.
  intros Hrun Hchanged.
  assert (∀ out0, (getConfig h ;;; ret tt)%async w = (out0, w') → False)
    as Hshow.
  { unfold bind, ret. intros out0 Hget.
    destruct (getConfig h w) as [o w1] eqn:Hg.
    apply getConfig_disk in Hg as [Hp Hj].
    destruct o; simplify_eq; destruct Hchanged; congruence. }
  destruct (ConfigCommand.show options); simpl in Hrun; [by destruct (Hshow _ Hrun)|].
  split; [done|].
  destruct (ConfigCommand.given (ConfigCommand.target options)) as [t|] eqn:Ht,
    (ConfigCommand.given (ConfigCommand.method options)) as [m|] eqn:Hm;
    simpl in Hrun; try (by destruct (Hshow _ Hrun)).
  all: split; [by eauto|]; intros m' [= <-].
  all: unfold ConfigCommand.valid_method in Hrun.
  all: destruct (String.eqb_spec m "symlink") as [->|]; [by left|].
  all: destruct (String.eqb_spec m "copy") as [->|]; [by right|].
  all: simpl in Hrun; unfold exit in Hrun; simplify_eq.
  all: destruct Hchanged; congruence.
Qed.


End ConfigMore.

(** ** getTargetConfig *)

(** X24. A target key that [Object.prototype] does not define, built in
    or not, resolves to a configuration whose skills, rules and commands
    directories are the key followed by [/skills], [/rules] and
    [/commands], and whose settings directory is the key itself; the
    agents directory is the key followed by [/agents], except for
    [.agents], whose agents go into [.agents] itself. A key that
    [Object.prototype] defines, such as [constructor], resolves to what is
    found there instead of the fallback, and that has no directory for any
    type. *)
Theorem getTargetConfig_layout (key : string) :
  (inherited key = false →
   ∃ config,
     getTargetConfig key = Config config ∧
     skills_dir config = key +:+ "/skills" ∧
     rules_dir config = key +:+ "/rules" ∧
     commands_dir config = key +:+ "/commands" ∧
     settings_dir config = key ∧
     agents_dir config =
       (if String.eqb key ".agents" then key else key +:+ "/agents")) ∧
  (inherited key = true →
   ∃ name,
     getTargetConfig key = Inherited name ∧
     ∀ type, dir_at (getTargetConfig key) type = None).
Proof.
  split.
  - unfold inherited, getTargetConfig, TARGETS. intros Hkey.
    apply orb_false_elim in Hkey as [Hproto Hfun]. rewrite Hproto, Hfun.
    destruct (String.eqb_spec key "constructor") as [->|_];
      [vm_compute in Hfun; discriminate Hfun|].
    destruct (String.eqb_spec key ".claude") as [->|_]; [by eexists|].
    destruct (String.eqb_spec key ".cursor") as [->|_]; [by eexists|].
    destruct (String.eqb_spec key ".agents") as [->|_]; by eexists.
  - intros Hkey. destruct (getTargetConfig_inherited key Hkey) as [name Hname].
    exists name. by rewrite Hname.
Qed.

(** ** deepMerge, mergeSettings, mergeMcp *)

Section SettingsFacts.
Import Settings.

Lemma get_set_eq (o : object) k v : get (set o k v) k = Some v.
Proof.
  induction o as [|[k0 v0] o IH]; simpl; [by rewrite String.eqb_refl|].
  destruct (String.eqb_spec k0 k) as [->|]; simpl.
  - by rewrite String.eqb_refl.
  - by destruct (String.eqb_spec k0 k).
Qed.

Lemma get_set_ne (o : object) k k' v : k ≠ k' → get (set o k v) k' = get o k'.
Proof.
  intros Hne. induction o as [|[k0 v0] o IH]; simpl.
  - by destruct (String.eqb_spec k k').
  - destruct (String.eqb_spec k0 k) as [->|]; simpl.
    + by destruct (String.eqb_spec k k').
    + by rewrite IH.
Qed.

Lemma set_set (o : object) k v : set (set o k v) k v = set o k v.
Proof.
  induction o as [|[k0 v0] o IH]; simpl.
  - by rewrite String.eqb_refl.
  - destruct (String.eqb_spec k0 k) as [->|Hne]; simpl.
    + by rewrite String.eqb_refl.
    + destruct (String.eqb_spec k0 k); [done|]. by rewrite IH.
Qed.

Lemma get_None (o : object) k : k ∉ o.*1 → get o k = None.
Proof.
  induction o as [|[k0 v0] o IH]; simpl; [done|]. intros Hk.
  destruct (String.eqb_spec k0 k) as [->|]; [set_solver|]. apply IH. set_solver.
Qed.

Lemma get_Some_elem (o : object) k v : get o k = Some v → (k, v) ∈ o.
Proof.
  induction o as [|[k0 v0] o IH]; simpl; [done|].
  destruct (String.eqb_spec k0 k) as [->|]; [intros [= ->]; left|right; auto].
Qed.

Lemma deepMerge_unfold (target source : object) :
  deepMerge target source =
    foldl (λ result kv, set result kv.1 (merged_value target kv.1 kv.2))
      target source.
Proof.
  unfold deepMerge. cbn [merge_into].
  match goal with
  | |- ?assign source target = _ =>
      enough (∀ result, assign source result =
                foldl (λ result kv, set result kv.1 (merged_value target kv.1 kv.2))
                  result source) as Hall by apply Hall
  end.
  induction source as [|[key sv] source IH]; intros result; simpl; [done|].
  rewrite IH. do 2 f_equal. unfold merged_value. by destruct sv.
Qed.

(** X25. What [deepMerge] leaves at each key: a key the source lacks
    keeps the value of the target; a key the source has takes the value of
    the source, unless both sides hold a plain object there, which are
    merged in turn. So arrays and scalars are replaced, never merged, and
    no key of the target is lost. *)
Theorem deepMerge_lookup (target source : object) (key : string) :
  NoDup source.*1 →
  get (deepMerge target source) key =
    match get source key with
    | None => get target key
    | Some sv => Some (merged_value target key sv)
    end.
Proof.
  rewrite deepMerge_unfold.
  enough (∀ result, NoDup source.*1 →
            get (foldl (λ result kv, set result kv.1 (merged_value target kv.1 kv.2))
                   result source) key =
              match get source key with
              | None => get result key
              | Some sv => Some (merged_value target key sv)
              end) as Hall by apply Hall.
  induction source as [|[k0 v0] source IH]; intros result Hnd;
    simpl; [done|].
  apply NoDup_cons in Hnd as [Hk0 Hnd]. rewrite IH by done.
  destruct (String.eqb_spec k0 key) as [->|Hne].
  - by rewrite get_None, get_set_eq.
  - by rewrite get_set_ne.
Qed.

Lemma set_fresh (o : object) k v : k ∉ o.*1 → set o k v = o ++ [(k, v)].
Proof.
  induction o as [|[k0 v0] o IH]; simpl; [done|]. intros Hk.
  destruct (String.eqb_spec k0 k) as [->|]; [set_solver|].
  rewrite IH; [done|set_solver].
Qed.

Lemma deepMerge_empty_target (source : object) :
  NoDup source.*1 → deepMerge [] source = source.
Proof.
  rewrite deepMerge_unfold.
  enough (∀ result, NoDup (result.*1 ++ source.*1) →
            foldl (λ result kv, set result kv.1 (merged_value [] kv.1 kv.2))
              result source = result ++ source) as Hall by apply (Hall []).
  induction source as [|[k v] source IH]; intros result Hnd; simpl.
  - by rewrite app_nil_r.
  - rewrite set_fresh.
    + rewrite IH; [by rewrite <- app_assoc; destruct v|].
      rewrite fmap_app, <- app_assoc. simpl. done.
    + apply NoDup_app in Hnd as (_ & Hdisj & _). intros Hin.
      apply (Hdisj k Hin). simpl. left.
Qed.

Lemma backup_differs (p : string) : p +:+ ".backup" ≠ p.
Proof.
  intros Heq. apply (f_equal String.length) in Heq.
  rewrite length_append in Heq. simpl in Heq. lia.
Qed.

Section Files.
Variable env : io.
Variables sourcePath targetPath : string.

(** X26. With the target there and readable and [backup] on,
    [mergeSettings] first saves the target as it was under
    [<target>.backup], then stores the merge of the two documents at the
    target; every other path is left alone. *)
Theorem mergeSettings_backs_up (sdoc tdoc : object) (fs : Files) :
  fs !! sourcePath = Some (Json sdoc) →
  fs !! targetPath = Some (Json tdoc) →
  (∀ o, refuses env o = None) →
  ∃ fs',
    mergeSettings env sourcePath targetPath true fs = (Done tt, fs') ∧
    fs' !! targetPath = Some (Json (deepMerge tdoc sdoc)) ∧
    fs' !! (targetPath +:+ ".backup") = Some (Json tdoc) ∧
    ∀ p, p ≠ targetPath → p ≠ targetPath +:+ ".backup" → fs' !! p = fs !! p.
Proof.
  intros Hs Ht Hok.
  unfold mergeSettings, bind, readJson, pathExists, copy, writeJson, ret.
  rewrite !Hok, Hs. rewrite bool_decide_true by (by rewrite Ht).
  rewrite Ht. rewrite lookup_insert_ne by apply backup_differs. rewrite Ht.
  eexists. split; [reflexivity|]. split_and!.
  - by rewrite lookup_insert_eq.
  - rewrite lookup_insert_ne by (apply not_eq_sym, backup_differs).
    by rewrite lookup_insert_eq.
  - intros p Hp Hb. by rewrite !lookup_insert_ne.
Qed.

(** X27. When [mergeSettings] fails, every path but the target and its
    backup is as it was. The target itself is as it was when a read or the
    backup is what failed, since the merge is written last; only the final
    write, rejected after it had emptied the file, leaves the target
    damaged, and the error is then the one of that write. *)
Theorem mergeSettings_failure_keeps_target backup (fs fs' : Files) e :
  mergeSettings env sourcePath targetPath backup fs = (Thrown e, fs') →
  (∀ p, p ≠ targetPath +:+ ".backup" → p ≠ targetPath → fs' !! p = fs !! p) ∧
  (fs' !! targetPath = fs !! targetPath ∨
   (refuses env (Write targetPath) = Some e ∧ torn env targetPath = true ∧
    fs' !! targetPath = Some NotJson)).
Proof.
  unfold mergeSettings, bind, readJson, pathExists, copy, writeJson, ret.
  intros Hrun.
  pose proof (backup_differs targetPath) as Hne.
  repeat (case_match; simplify_eq/=).
  all: split; [intros p Hb Ht; by rewrite ?lookup_insert_ne by done|].
  all: rewrite ?lookup_insert_eq, ?(lookup_insert_ne _ _ _ _ Hne).
  all: first [by left | by right].
Qed.

(** X28. With no target yet, [mergeSettings] stores the source document
    itself at the target and makes no backup. *)
Theorem mergeSettings_new_target (sdoc : object) backup (fs : Files) :
  fs !! sourcePath = Some (Json sdoc) →
  fs !! targetPath = None →
  NoDup sdoc.*1 →
  (∀ o, refuses env o = None) →
  mergeSettings env sourcePath targetPath backup fs =
    (Done tt, <[targetPath := Json sdoc]> fs).
Proof.
  intros Hs Ht Hnd Hok.
  unfold mergeSettings, bind, readJson, pathExists, copy, writeJson, ret.
  rewrite !Hok, Hs. rewrite bool_decide_false by (rewrite Ht; by intros [? ?]).
  by rewrite deepMerge_empty_target.
Qed.

End Files.

Lemma merge_servers_spec (entries : object) :
  ∀ servers a s, NoDup entries.*1 →
    added (merge_servers entries servers a s).2 =
      a ++ filter (λ n, truthy (get servers n) = false) entries.*1 ∧
    skipped (merge_servers entries servers a s).2 =
      s ++ filter (λ n, truthy (get servers n) = true) entries.*1 ∧
    ∀ n, get (merge_servers entries servers a s).1 n =
           if truthy (get servers n) then get servers n
           else match get entries n with
                | Some config => Some config
                | None => get servers n
                end.
Proof.
  induction entries as [|[name config] rest IH]; intros servers a s Hnd.
  - simpl. rewrite !app_nil_r. split_and!; [done..|].
    intros n. by destruct (truthy _).
  - apply NoDup_cons in Hnd as [Hname Hnd]. cbn [merge_servers fmap list_fmap].
    rewrite !filter_cons. simpl.
    destruct (truthy (get servers name)) eqn:Ht.
    + destruct (IH servers a (s ++ [name]) Hnd) as (Ha & Hs & Hget).
      rewrite Ha, Hs. rewrite decide_False, decide_True by done.
      rewrite <- app_assoc. split_and!; [done..|].
      intros n. rewrite Hget.
      destruct (String.eqb_spec name n) as [->|]; [by rewrite Ht|done].
    + destruct (IH (set servers name config) (a ++ [name]) s Hnd)
        as (Ha & Hs & Hget).
      rewrite Ha, Hs. rewrite decide_True, decide_False by done.
      rewrite <- app_assoc.
      assert (∀ n, n ∈ rest.*1 →
                get (set servers name config) n = get servers n) as Hsame.
      { intros n Hn. apply get_set_ne. by intros ->. }
      split_and!.
      * f_equal. simpl. f_equal. apply filter_ext_elem.
        intros n Hn. by rewrite Hsame.
      * f_equal. apply filter_ext_elem. intros n Hn. by rewrite Hsame.
      * intros n. rewrite Hget.
        destruct (String.eqb_spec name n) as [<-|Hne].
        -- rewrite get_set_eq, Ht, (get_None rest name) by done.
           by case_match.
        -- by rewrite get_set_ne.
Qed.

Section McpFiles.
Variable env : io.
Variables sourcePath targetPath : string.
Hypothesis runs : ∀ o, refuses env o = None.

Lemma mergeMcp_runs (sdoc tdoc : object) (fs : Files) :
  fs !! sourcePath = Some (Json sdoc) →
  fs !! targetPath = Some (Json tdoc) →
  mergeMcp env sourcePath targetPath fs =
    (Done (merge_servers (servers_of sdoc) (servers_of tdoc) [] []).2,
     <[targetPath :=
         Json (set tdoc "mcpServers"
                 (Obj (merge_servers (servers_of sdoc) (servers_of tdoc) [] []).1))]>
       fs).
Proof.
  intros Hs Ht.
  unfold mergeMcp, bind, readJson, pathExists, ensureDir, writeJson, ret.
  rewrite !runs, Hs. rewrite bool_decide_true by (by rewrite Ht).
  by rewrite Ht.
Qed.

(** X29. On documents whose [mcpServers] has its declared type,
    [mergeMcp] never replaces a server the target already has: every
    server with a truthy entry in the target comes out with that very
    entry, every key of the target document other than [mcpServers] keeps
    its value, and the names of the source are reported in their order,
    [skipped] those the target had and [added] the others, which now
    carry the source's configuration. *)
Theorem mergeMcp_keeps_existing (sdoc tdoc : object) (fs : Files) :
  fs !! sourcePath = Some (Json sdoc) →
  fs !! targetPath = Some (Json tdoc) →
  typed sdoc → typed tdoc →
  NoDup (servers_of sdoc).*1 →
  ∃ res tdoc',
    mergeMcp env sourcePath targetPath fs =
      (Done res, <[targetPath := Json tdoc']> fs) ∧
    added res =
      filter (λ n, truthy (get (servers_of tdoc) n) = false) (servers_of sdoc).*1 ∧
    skipped res =
      filter (λ n, truthy (get (servers_of tdoc) n) = true) (servers_of sdoc).*1 ∧
    (∀ k, k ≠ "mcpServers" → get tdoc' k = get tdoc k) ∧
    (∀ n, truthy (get (servers_of tdoc) n) = true →
          get (servers_of tdoc') n = get (servers_of tdoc) n) ∧
    (∀ n, n ∈ added res →
          get (servers_of tdoc') n = get (servers_of sdoc) n).
Proof.
  intros Hs Ht _ _ Hnd.
  destruct (merge_servers_spec (servers_of sdoc) (servers_of tdoc) [] [] Hnd)
    as (Ha & Hsk & Hget).
  eexists _, _. split; [by apply mergeMcp_runs|].
  rewrite Ha, Hsk. split_and!; [done..| | |].
  - intros k Hk. by rewrite get_set_ne.
  - intros n Hn. unfold servers_of at 1. rewrite get_set_eq, Hget. by rewrite Hn.
  - intros n Hn. simpl in Hn. apply list_elem_of_filter in Hn as [Hf Hin].
    unfold servers_of at 1. rewrite get_set_eq, Hget, Hf.
    apply list_elem_of_fmap in Hin as ([k v] & -> & Hin). simpl.
    destruct (get (servers_of sdoc) k) eqn:Hk; [done|].
    exfalso. clear -Hin Hk. induction (servers_of sdoc) as [|[k0 v0] o IH];
      [by apply elem_of_nil in Hin|].
    simpl in Hk. destruct (String.eqb_spec k0 k) as [->|Hne]; [done|].
    apply elem_of_cons in Hin as [[= <- <-]|Hin]; [done|auto].
Qed.

(** X30. Run again on its own output, [mergeMcp] adds nothing: every
    server of the source with a truthy configuration is reported as
    skipped, and the target is written back as it was. *)
Theorem mergeMcp_twice (sdoc tdoc : object) (fs fs1 : Files) res :
  sourcePath ≠ targetPath →
  fs !! sourcePath = Some (Json sdoc) →
  fs !! targetPath = Some (Json tdoc) →
  typed sdoc → typed tdoc →
  NoDup (servers_of sdoc).*1 →
  (∀ n config, get (servers_of sdoc) n = Some config → truthy (Some config) = true) →
  mergeMcp env sourcePath targetPath fs = (Done res, fs1) →
  mergeMcp env sourcePath targetPath fs1 =
    (Done {| added := []; skipped := (servers_of sdoc).*1 |}, fs1).
Proof.
  intros Hne Hs Ht _ _ Hnd Htruthy Hrun.
  rewrite (mergeMcp_runs sdoc tdoc) in Hrun by done.
  injection Hrun as <- <-.
  destruct (merge_servers_spec (servers_of sdoc) (servers_of tdoc) [] [] Hnd)
    as (_ & _ & Hget).
  set (servers1 := (merge_servers (servers_of sdoc) (servers_of tdoc) [] []).1) in *.
  set (tdoc1 := set tdoc "mcpServers" (Obj servers1)).
  assert (servers_of tdoc1 = servers1) as Hservers.
  { unfold servers_of, tdoc1. by rewrite get_set_eq. }
  assert (∀ n, n ∈ (servers_of sdoc).*1 → truthy (get servers1 n) = true) as Hall.
  { intros n Hn. rewrite Hget. destruct (truthy (get (servers_of tdoc) n)) eqn:Hn'; [done|].
    destruct (get (servers_of sdoc) n) eqn:Hk; [by eapply Htruthy|].
    exfalso. apply list_elem_of_fmap in Hn as ([k v] & -> & Hin). simpl in Hk.
    clear -Hin Hk. induction (servers_of sdoc) as [|[k0 v0] o IH];
      [by apply elem_of_nil in Hin|].
    simpl in Hk. destruct (String.eqb_spec k0 k) as [->|Hne]; [done|].
    apply elem_of_cons in Hin as [[= <- <-]|Hin]; [done|auto]. }
  rewrite (mergeMcp_runs sdoc tdoc1);
    [|by rewrite lookup_insert_ne|by rewrite lookup_insert_eq].
  rewrite Hservers.
  assert (∀ entries a s,
            (∀ n, n ∈ entries.*1 → truthy (get servers1 n) = true) →
            merge_servers entries servers1 a s =
              (servers1, {| added := a; skipped := s ++ entries.*1 |})) as Hskip.
  { induction entries as [|[n c] entries IH]; intros a s Hin; simpl.
    - by rewrite app_nil_r.
    - rewrite Hin by (simpl; left). rewrite IH by (intros; apply Hin; simpl; by right).
      by rewrite <- app_assoc. }
  rewrite Hskip by done. simpl. f_equal.
  rewrite insert_insert_eq. f_equal. f_equal. apply set_set.
Qed.

End McpFiles.

End SettingsFacts.

(** * Part V: the further properties at work on concrete runs *)

Lemma parse_url_witness :
  parseGitHubUrl "https://github.com/owner/repo" =
    Done {| owner := "owner"; repo := "repo"; branch := "main"; subpath := None |}.
Proof. refine (parse_url "owner" "repo" _ _); by split. Defined.

Lemma parse_url_tree_subpath_witness :
  parseGitHubUrl "https://github.com/owner/repo/tree/dev/skills/foo" =
    Done {| owner := "owner"; repo := "repo"; branch := "dev";
            subpath := Some "skills/foo" |}.
Proof.
  refine (parse_url_tree_subpath "owner" "repo" _ _ "dev" "skills/foo" _ _ _);
    first [by split | discriminate | reflexivity].
Defined.

Lemma parse_shorthand_witness :
  parseGitHubUrl "owner/repo" =
    Done {| owner := "owner"; repo := "repo"; branch := "main"; subpath := None |}.
Proof. refine (parse_shorthand "owner" "repo" _ _); by split. Defined.

Lemma parse_shorthand_branch_witness :
  parseGitHubUrl "owner/repo/tree/dev" =
    Done {| owner := "owner"; repo := "repo"; branch := "tree/dev";
            subpath := None |}.
Proof.
  refine (parse_shorthand_branch "owner" "repo" _ _ "tree/dev" _ _);
    first [by split | discriminate | reflexivity].
Defined.

Lemma parse_url_dot_git_witness :
  parseGitHubUrl "https://github.com/owner/repo.git" =
    Done {| owner := "owner"; repo := "repo"; branch := "main"; subpath := None |}.
Proof.
  refine (parse_url_dot_git "owner" "repo" _ _ _);
    first [by split | discriminate | reflexivity].
Defined.

Lemma parse_url_tree_trailing_slash_witness :
  parseGitHubUrl "https://github.com/owner/repo/tree/dev/" =
    Done {| owner := "owner"; repo := "repo"; branch := "main";
            subpath := Some "tree/dev/" |}.
Proof.
  refine (parse_url_tree_trailing_slash "owner" "repo" "dev" _ _ _ _);
    first [by split | reflexivity].
Defined.

Lemma linkOrCopy_force_replaces_witness :
  ∃ r w' calls,
    linkOrCopy Sample.linux "/src/skills/foo" "/work/.claude/skills/foo"
      symlink_method true
      (Sample.disk ["/src/skills/foo"; "/work/.claude/skills/foo"])
      = (Done r, w') ∧
    success r = true ∧
    "/work/.claude/skills/foo" ∈ present w' ∧
    trace w' = [] ++ calls ∧
    Remove "/work/.claude/skills/foo" ∈ calls.
Proof.
  destruct (linkOrCopy_force_replaces Sample.linux "/src/skills/foo"
              "/work/.claude/skills/foo" symlink_method
              (Sample.disk ["/src/skills/foo"; "/work/.claude/skills/foo"]))
    as (r & w' & calls & Hrun & Hok & Hplaced & Htrace & Hremove);
    [reflexivity | reflexivity | reflexivity |].
  exists r, w', calls.
  split; [exact Hrun|]. split; [exact Hok|].
  split; [apply Hplaced; right; split; [by_compute|reflexivity]|].
  split; [exact Htrace|].
  apply Hremove. by_compute.
Defined.


Lemma linkOrCopy_without_force_keeps_witness :
  present (Sample.disk ["/work/.claude/skills/bar"]) ⊆
    present (linkOrCopy Sample.no_symlinks "/src/skills/foo"
               "/work/.claude/skills/foo" symlink_method false
               (Sample.disk ["/work/.claude/skills/bar"])).2.
Proof.
  exact (proj1 (linkOrCopy_without_force_keeps Sample.no_symlinks "/src/skills/foo"
                  "/work/.claude/skills/foo" symlink_method
                  (Sample.disk ["/work/.claude/skills/bar"])
                  _ _ (surjective_pairing _))).
Defined.


Lemma installCommand_exit_codes_witness :
  (∃ finished,
     (installCommand Sample.no_symlinks install false symlink_method
        [".claude"] [skills; rules] [(skills, [Sample.foo; Sample.bar])]
        (λ _, Cancelled) (Answered true) (Sample.disk [])).1 = Done finished) ∨
  (installCommand Sample.no_symlinks install false symlink_method
     [".claude"] [skills; rules] [(skills, [Sample.foo; Sample.bar])]
     (λ _, Cancelled) (Answered true) (Sample.disk [])).1 = Exited 0.
Proof.
  destruct (installCommand_exit_codes Sample.no_symlinks false symlink_method
              [".claude"] [skills; rules] [(skills, [Sample.foo; Sample.bar])]
              (λ _, Cancelled) (Answered true) install (Sample.disk []))
    as (_ & Hkeys & _).
  eapply Hkeys; [|apply surjective_pairing].
  apply Forall_cons_2; [vm_compute; reflexivity|apply Forall_nil_2].
Defined.

Lemma installCommand_install_keeps_witness :
  present (Sample.disk ["/work/.cursor/skills/foo"]) ⊆
    present (installCommand Sample.linux install true copy_method
               [".claude"; ".cursor"] [skills] [(skills, [Sample.foo; Sample.bar])]
               (λ _, Cancelled) (Answered true)
               (Sample.disk ["/work/.cursor/skills/foo"])).2.
Proof.
  exact (proj1 (installCommand_install_keeps Sample.linux true copy_method
                  [".claude"; ".cursor"] [skills] [(skills, [Sample.foo; Sample.bar])]
                  (λ _, Cancelled) (Answered true)
                  (Sample.disk ["/work/.cursor/skills/foo"])
                  _ _ (surjective_pairing _))).
Defined.

Lemma installCommand_update_never_skips_witness :
  ∃ summaries w',
    installCommand Sample.linux update false symlink_method [".claude"] [skills]
      [(skills, [Sample.foo])] (λ _, Answered ["foo"]) (Answered true)
      (Sample.disk ["/work/.claude/skills/foo"])
      = (Done (Completed summaries), w') ∧
    Forall (λ s, skipped s = 0) summaries.
Proof.
  assert (installCommand Sample.linux update false symlink_method [".claude"] [skills]
            [(skills, [Sample.foo])] (λ _, Answered ["foo"]) (Answered true)
            (Sample.disk ["/work/.claude/skills/foo"])
          = (Done (Completed
                     [{| Install.target := ".claude"; targetName := "Claude Code";
                         installed := 1; skipped := 0; failed := 0 |}]),
             (installCommand Sample.linux update false symlink_method [".claude"]
                [skills] [(skills, [Sample.foo])] (λ _, Answered ["foo"])
                (Answered true) (Sample.disk ["/work/.claude/skills/foo"])).2))
    as Hrun by (vm_compute; reflexivity).
  eexists _, _. split; [exact Hrun|].
  exact (installCommand_update_never_skips _ _ _ _ _ _ _ _ _ _ _ Hrun).
Defined.

Lemma same_id_second_fails_witness :
  ∃ w',
    install_items Sample.linux install symlink_method false []
      Sample.claude skills [Sample.foo; Sample.foo_again]
      Sample.claude_summary (Sample.disk ["/src/skills/foo"])
      = (Done {| Install.target := ".claude"; targetName := "Claude Code";
                 installed := 1; skipped := 0; failed := 1 |}, w').
Proof.
  apply (same_id_second_fails Sample.linux symlink_method [] Sample.claude
           skills Sample.foo Sample.foo_again Sample.claude_summary
           (Sample.disk ["/src/skills/foo"]));
    [reflexivity | reflexivity | by_compute | right; by_compute
    | reflexivity | reflexivity].
Defined.

Lemma update_reinstalls_witness :
  ∃ w',
    install_item Sample.linux update symlink_method true []
      Sample.claude skills Sample.foo Sample.claude_summary
      (Sample.disk ["/src/skills/foo"; "/work/.claude/skills/foo"])
      = (Done (count_installed Sample.claude_summary), w') ∧
    "/work/.claude/skills/foo" ∈ present w'.
Proof.
  destruct (update_reinstalls Sample.linux symlink_method [] Sample.claude
              skills Sample.foo Sample.claude_summary
              (Sample.disk ["/src/skills/foo"; "/work/.claude/skills/foo"]))
    as (w' & Hrun & Hplaced); [reflexivity | reflexivity | reflexivity |].
  exists w'. split; [exact Hrun|].
  apply Hplaced. right. split; [by_compute|reflexivity].
Defined.

Lemma fetchRepo_invalid_reference_witness :
  fetchRepo Sample.linux "not a repository" (Sample.disk []) =
    (Thrown "Invalid GitHub URL: not a repository",
     record (PathExists "not a repository") (Sample.disk [])).
Proof.
  apply (fetchRepo_invalid_reference Sample.linux "not a repository" (Sample.disk []));
    [by_compute | apply exec_None; reflexivity | apply exec_None; reflexivity].
Defined.

Lemma fetchRepo_master_fallback_witness :
  ∃ dir w' calls,
    fetchRepo Sample.master_only "owner/repo" (Sample.disk []) = (Done dir, w') ∧
    trace w' = [] ++ calls ∧
    fetched calls = ["https://github.com/owner/repo/archive/main.tar.gz";
                     "https://github.com/owner/repo/archive/master.tar.gz"].
Proof.
  pose proof (fetchRepo_master_fallback Sample.master_only "owner/repo"
                {| owner := "owner"; repo := "repo"; branch := "main";
                   subpath := None |} (Sample.disk [])) as Hthm.
  cbv zeta in Hthm.
  destruct Hthm as (w' & calls & Hrun & Htrace & Hfetched & _);
    [by_compute | reflexivity..|].
  eexists _, w', calls.
  split; [exact Hrun|]. split; [exact Htrace|exact Hfetched].
Defined.

Lemma fetchRepo_ignores_subpath_witness :
  (fetchRepo Sample.linux "https://github.com/owner/repo/tree/dev/skills"
     (Sample.disk [])).1 =
  (fetchRepo Sample.linux "https://github.com/owner/repo/tree/dev"
     (Sample.disk [])).1 ∧
  present (fetchRepo Sample.linux "https://github.com/owner/repo/tree/dev/skills"
             (Sample.disk [])).2 =
  present (fetchRepo Sample.linux "https://github.com/owner/repo/tree/dev"
             (Sample.disk [])).2.
Proof.
  apply (fetchRepo_ignores_subpath Sample.linux
           "https://github.com/owner/repo/tree/dev/skills"
           "https://github.com/owner/repo/tree/dev"
           {| owner := "owner"; repo := "repo"; branch := "dev";
              subpath := Some "skills" |}
           {| owner := "owner"; repo := "repo"; branch := "dev";
              subpath := None |} (Sample.disk []));
    [by_compute | by_compute | reflexivity..].
Defined.

Lemma getConfig_never_fails_witness :
  ∃ w', getConfig Sample.linux Sample.configured
        = (Done {[ "defaultTarget" := JStr ".cursor" ]}, w').
Proof.
  destruct (getConfig_never_fails Sample.linux Sample.configured)
    as (doc & w' & Hrun & _ & _ & Hstored & _).
  exists w'. rewrite Hrun.
  rewrite (Hstored {[ "defaultTarget" := JStr ".cursor" ]});
    [reflexivity | by_compute | reflexivity | vm_compute; reflexivity].
Defined.

Lemma getTargetConfig_layout_witness :
  ∃ config,
    getTargetConfig "vendor" = Config config ∧
    skills_dir config = "vendor/skills" ∧ agents_dir config = "vendor/agents".
Proof.
  destruct (proj1 (getTargetConfig_layout "vendor") eq_refl)
    as (config & Hkey & Hskills & _ & _ & _ & Hagents).
  exists config. split; [exact Hkey|]. split; [exact Hskills|exact Hagents].
Defined.

Lemma setConfig_replaces_unreadable_witness :
  ∃ w',
    setConfig Sample.linux {[ "linkMethod" := JStr "copy" ]} Sample.unreadable
      = (Done tt, w') ∧
    json w' !! CONFIG_PATH Sample.linux = Some {[ "linkMethod" := JStr "copy" ]}.
Proof.
  apply (setConfig_replaces_unreadable Sample.linux
           {[ "linkMethod" := JStr "copy" ]} Sample.unreadable);
    [reflexivity | reflexivity | right; left; vm_compute; reflexivity].
Defined.

Lemma setConfig_composes_witness :
  ∃ w1 w2 w12,
    setConfig Sample.linux {[ "linkMethod" := JStr "copy" ]} Sample.configured
      = (Done tt, w1) ∧
    setConfig Sample.linux {[ "defaultTarget" := JStr ".claude" ]} w1
      = (Done tt, w2) ∧
    setConfig Sample.linux
      ({[ "defaultTarget" := JStr ".claude" ]} ∪ {[ "linkMethod" := JStr "copy" ]})
      Sample.configured = (Done tt, w12) ∧
    json w2 = json w12 ∧ present w2 = present w12.
Proof.
  apply (setConfig_composes Sample.linux {[ "linkMethod" := JStr "copy" ]}
           {[ "defaultTarget" := JStr ".claude" ]} Sample.configured);
    reflexivity.
Defined.

Lemma configCommand_writes_only_valid_witness :
  ConfigCommand.show
    {| ConfigCommand.target := Some ".cursor"; ConfigCommand.method := Some "copy";
       ConfigCommand.show := false |} = false ∧
  ("copy" = "symlink" ∨ "copy" = "copy").
Proof.
  destruct (configCommand_writes_only_valid Sample.linux
              {| ConfigCommand.target := Some ".cursor";
                 ConfigCommand.method := Some "copy";
                 ConfigCommand.show := false |}
              (Sample.disk []) _ _ (surjective_pairing _))
    as (Hshow & _ & Hmethod).
  - right. intros Heq.
    apply (f_equal (λ s : gset string,
             bool_decide ("/home/u/.config/agent-share/config.json" ∈ s))) in Heq.
    vm_compute in Heq. discriminate Heq.
  - split; [exact Hshow|]. apply (Hmethod "copy"). reflexivity.
Defined.


Lemma deepMerge_lookup_witness :
  Settings.get (Settings.deepMerge Sample.target_settings Sample.source_settings)
    "permissions"
  = Some (Settings.Obj [("deny", Settings.Arr [Settings.Str "Write"]);
                        ("allow", Settings.Arr [Settings.Str "Bash"])]).
Proof.
  refine (deepMerge_lookup Sample.target_settings Sample.source_settings
            "permissions" _).
  by_compute.
Defined.

Lemma mergeSettings_backs_up_witness :
  ∃ fs',
    Settings.mergeSettings Sample.plain "/src/settings.json"
      "/work/.claude/settings.json" true Sample.settings_files = (Done tt, fs') ∧
    fs' !! "/work/.claude/settings.json" =
      Some (Settings.Json
              (Settings.deepMerge Sample.target_settings Sample.source_settings)) ∧
    fs' !! "/work/.claude/settings.json.backup" =
      Some (Settings.Json Sample.target_settings).
Proof.
  destruct (mergeSettings_backs_up Sample.plain "/src/settings.json"
              "/work/.claude/settings.json" Sample.source_settings
              Sample.target_settings Sample.settings_files)
    as (fs' & Hrun & Htarget & Hbackup & _);
    [vm_compute; reflexivity | vm_compute; reflexivity | reflexivity |].
  exists fs'. split; [exact Hrun|]. split; [exact Htarget|exact Hbackup].
Defined.

Lemma mergeSettings_failure_keeps_target_witness :
  (Settings.mergeSettings Sample.plain "/src/settings.json"
     "/work/.claude/settings.json" true Sample.damaged_files).2
    !! "/src/settings.json" = Some (Settings.Json Sample.source_settings).
Proof.
  assert (Settings.mergeSettings Sample.plain "/src/settings.json"
            "/work/.claude/settings.json" true Sample.damaged_files
          = (Thrown "/work/.claude/settings.json: Unexpected token in JSON",
             (Settings.mergeSettings Sample.plain "/src/settings.json"
                "/work/.claude/settings.json" true Sample.damaged_files).2))
    as Hrun by (vm_compute; reflexivity).
  transitivity (Sample.damaged_files !! "/src/settings.json");
    [|vm_compute; reflexivity].
  apply (proj1 (mergeSettings_failure_keeps_target _ _ _ _ _ _ _ Hrun));
    discriminate.
Defined.

Lemma mergeSettings_new_target_witness :
  Settings.mergeSettings Sample.plain "/src/settings.json"
    "/work/.claude/settings.json" true Sample.source_only
  = (Done tt,
     <["/work/.claude/settings.json" := Settings.Json Sample.source_settings]>
       Sample.source_only).
Proof.
  apply (mergeSettings_new_target Sample.plain "/src/settings.json"
           "/work/.claude/settings.json" Sample.source_settings true
           Sample.source_only);
    [vm_compute; reflexivity | vm_compute; reflexivity | by_compute | reflexivity].
Defined.

Lemma mergeMcp_keeps_existing_witness :
  ∃ res tdoc',
    Settings.mergeMcp Sample.plain "/src/mcp.json" "/work/.mcp.json" Sample.mcp_files
      = (Done res, <["/work/.mcp.json" := Settings.Json tdoc']> Sample.mcp_files) ∧
    Settings.added res = ["files"] ∧
    Settings.skipped res = ["github"] ∧
    Settings.get (Settings.servers_of tdoc') "github" =
      Some (Settings.Obj [("command", Settings.Str "mine")]).
Proof.
  destruct (mergeMcp_keeps_existing Sample.plain "/src/mcp.json" "/work/.mcp.json"
              (λ _, eq_refl) Sample.source_mcp Sample.target_mcp Sample.mcp_files)
    as (res & tdoc' & Hrun & Hadded & Hskipped & _ & Hkeep & _);
    [vm_compute; reflexivity | vm_compute; reflexivity | exact I | exact I
    | by_compute |].
  exists res, tdoc'. split; [exact Hrun|].
  split; [rewrite Hadded; vm_compute; reflexivity|].
  split; [rewrite Hskipped; vm_compute; reflexivity|].
  apply (Hkeep "github"). reflexivity.
Defined.

Lemma mergeMcp_twice_witness :
  ∃ res fs1,
    Settings.mergeMcp Sample.plain "/src/mcp.json" "/work/.mcp.json" Sample.mcp_files
      = (Done res, fs1) ∧
    Settings.mergeMcp Sample.plain "/src/mcp.json" "/work/.mcp.json" fs1
      = (Done {| Settings.added := []; Settings.skipped := ["github"; "files"] |},
         fs1).
Proof.
  assert (Settings.mergeMcp Sample.plain "/src/mcp.json" "/work/.mcp.json"
            Sample.mcp_files
          = (Done {| Settings.added := ["files"]; Settings.skipped := ["github"] |},
             (Settings.mergeMcp Sample.plain "/src/mcp.json" "/work/.mcp.json"
                Sample.mcp_files).2))
    as Hrun by (vm_compute; reflexivity).
  eexists _, _. split; [exact Hrun|].
  eapply (mergeMcp_twice Sample.plain "/src/mcp.json" "/work/.mcp.json"
            (λ _, eq_refl) Sample.source_mcp Sample.target_mcp Sample.mcp_files);
    [discriminate | vm_compute; reflexivity | vm_compute; reflexivity
    | exact I | exact I | by_compute | | exact Hrun].
  intros n config Hget. apply get_Some_elem in Hget.
  apply elem_of_cons in Hget as [[= _ ->]|Hget]; [reflexivity|].
  apply elem_of_cons in Hget as [[= _ ->]|Hget]; [reflexivity|].
  destruct (proj1 (elem_of_nil _) Hget).
Defined.
